(** * backy2 data backends: the read/write pipeline of [DataBackend]

    A shallow embedding of [src/backy2/data_backends/__init__.py] (the base
    class [DataBackend]) and of [src/backy2/data_backends/null.py] (the null
    backend that overrides it), with the properties the specification
    states about them.

    The methods run on threads that share the backend object, so a method
    is embedded as a program over atomic actions on the shared state
    ([Prog]); an action is either enabled in a state or has to wait
    ([Wait]), which is how a blocking [put], [get] or [join] appears.
    A worker's [while True] loop is embedded as its body, which the thread
    repeats ([thread_step]).

    [queue_status] and [thread_status], which only read queue sizes and
    status maps to build a report, are embedded as what a call makes of
    one state. Left out: the text of log messages, and the two
    [time.time()] readings that only feed a log message. *)

From Stdlib Require Import ZArith QArith String Ascii List Lia.
From stdpp Require Import base gmap strings list pretty.

Local Open Scope Z_scope.

(** ** Python values *)

Definition bytes : Type := list Byte.byte.

(** Exceptions that the modelled code raises, or passes on. *)
Inductive exn : Type :=
| Exception (msg : string)          (* any other exception object *)
| AttributeError (name : string)
| UnboundLocalError (name : string)
| RuntimeError (msg : string)
| FileNotFoundError (msg : string)
| TypeError (msg : string)
| ValueError (msg : string)
| IndexError (msg : string)
| UnicodeEncodeError
| NotImplementedError
| queue_Empty.                      (* queue.Empty *)

(** What [len(None)] raises. *)
Definition no_len : exn := TypeError "object of type 'NoneType' has no len()".

(** What [read] hands back: [bytes], a [str], or [None]. *)
Inductive pyval : Type :=
| PyNone
| PyBytes (b : bytes)
| PyStr (s : string).

(** An instance attribute that may not have been assigned. *)
Inductive attr (A : Type) : Type :=
| Unset
| Assigned (a : A).
Arguments Unset {A}.
Arguments Assigned {A} a.

(** [s.encode('ascii')]: fails on a character outside ASCII. *)
Definition is_ascii (c : ascii) : bool := (N_of_ascii c <? 128)%N.

Fixpoint encode_ascii (s : string) : exn + bytes :=
  match s with
  | EmptyString => inr []
  | String c s' =>
      if is_ascii c then
        match encode_ascii s' with
        | inr b => inr (byte_of_ascii c :: b)
        | inl e => inl e
        end
      else inl UnicodeEncodeError
  end.

(** [' ' * n] *)
Fixpoint str_repeat (c : ascii) (n : nat) : string :=
  match n with
  | O => EmptyString
  | S n' => String c (str_repeat c n')
  end.

(** ** The collaborators that are not part of these two files

    [shortuuid], [hashlib], [backy2.utils.TokenBucket] and
    [backy2.utils.generate_block] are imported by the source; they are
    taken as parameters, and so is Python's [int] on a string, which
    returns the number the string is a literal of or raises. Randomness is
    an oracle: [shortuuid_uuid k] is what the [k]-th call of
    [shortuuid.uuid()] returns. *)
Class Externals : Type := {
  int : string -> exn + Z;
  callback : Type;
  seconds : Type;
  TokenBucket : Type;
  TokenBucket_new : TokenBucket;
  set_rate : Z -> TokenBucket -> TokenBucket;
  consume : nat -> TokenBucket -> seconds * TokenBucket;
  generate_block : Z -> Z -> bytes;
  shortuuid_uuid : nat -> string;
  md5_hexdigest : bytes -> string
}.

(** ** Blocks *)

Module Block.
Record t : Type := mk { id : Z; uid : string; size : Z }.
End Block.

(** ** [queue.Queue] *)

Record Queue (A : Type) : Type := mkQueue {
  queue : list A;              (* the deque, oldest first *)
  maxsize : Z;                 (* <= 0 means no bound *)
  unfinished_tasks : Z
}.
Arguments mkQueue {A} queue maxsize unfinished_tasks.
Arguments queue {A} q.
Arguments maxsize {A} q.
Arguments unfinished_tasks {A} q.

Section QueueOps.
Context {A : Type}.

(** [Queue(maxsize)] *)
Definition Queue_new (maxsize : Z) : Queue A := mkQueue [] maxsize 0.

Definition qsize (q : Queue A) : Z := Z.of_nat (length (queue q)).

(** [put] waits while [maxsize > 0 and qsize() >= maxsize]. *)
Definition full (q : Queue A) : bool :=
  (0 <? maxsize q) && (maxsize q <=? qsize q).

Definition q_put (x : A) (q : Queue A) : option (Queue A) :=
  if full q then None
  else Some (mkQueue (queue q ++ [x]) (maxsize q) (unfinished_tasks q + 1)).

(** [get] waits while the queue is empty. *)
Definition q_get (q : Queue A) : option (A * Queue A) :=
  match queue q with
  | [] => None
  | x :: rest => Some (x, mkQueue rest (maxsize q) (unfinished_tasks q))
  end.

Definition q_task_done (q : Queue A) : exn + Queue A :=
  let unfinished := unfinished_tasks q - 1 in
  if unfinished <? 0 then inl (ValueError "task_done() called too many times")
  else inr (mkQueue (queue q) (maxsize q) unfinished).

(** [join] waits while [unfinished_tasks] is non-zero. *)
Definition q_joinable (q : Queue A) : bool := unfinished_tasks q =? 0.
End QueueOps.

(** ** The backend object and the interpreter state around it *)

Inductive tid : Type :=
| WriterThread (i : nat)      (* Thread(target=self._writer, args=(i,)) *)
| ReaderThread (i : nat).     (* Thread(target=self._reader, args=(i,)) *)

Global Instance tid_eq_dec : EqDecision tid.
Proof. solve_decision. Defined.

Definition STATUS_NOTHING : Z := 0.
Definition STATUS_READING : Z := 1.
Definition STATUS_WRITING : Z := 2.
Definition STATUS_THROTTLING : Z := 3.
Definition STATUS_QUEUE : Z := 4.

Section Model.
Context `{Ext : Externals}.

(** What travels on the write queue is a tuple: [(uid, data)] for the
    null backend's writer, [(uid, data, callback)] from the base class's
    [save]. [None] on a queue is the stop sentinel. *)
Inductive write_entry : Type :=
| Entry2 (uid : string) (data : bytes)
| Entry3 (uid : string) (data : bytes) (cb : option callback).

(** Attributes that are assigned once, at construction. *)
Record Attrs : Type := mkAttrs {
  last_exception : attr (option exn);
  fatal_error : option exn;
  default_block_size : Z;
  write_queue_length : Z;
  read_queue_length : Z;
  _writer_threads : list tid;
  _reader_threads : list tid
}.

Record World : Type := mkWorld {
  attrs : Attrs;
  _write_queue : Queue (option write_entry);
  _read_queue : Queue (option Block.t);
  _read_data_queue : Queue (Block.t * option bytes);
  reader_thread_status : gmap nat Z;
  writer_thread_status : gmap nat Z;
  read_throttling : TokenBucket;
  write_throttling : TokenBucket;
  live : list tid;            (* threads started and not yet finished *)
  draws : nat                 (* calls of shortuuid.uuid() so far *)
}.

Inductive qname : Type := WriteQ | ReadQ | ReadDataQ.

Definition elem (q : qname) : Type :=
  match q with
  | WriteQ => option write_entry
  | ReadQ => option Block.t
  | ReadDataQ => (Block.t * option bytes)%type
  end.

Definition getq (q : qname) (w : World) : Queue (elem q) :=
  match q with
  | WriteQ => _write_queue w
  | ReadQ => _read_queue w
  | ReadDataQ => _read_data_queue w
  end.

Definition setq (q : qname) : Queue (elem q) -> World -> World :=
  match q with
  | WriteQ => fun v w =>
      mkWorld (attrs w) v (_read_queue w) (_read_data_queue w)
        (reader_thread_status w) (writer_thread_status w)
        (read_throttling w) (write_throttling w) (live w) (draws w)
  | ReadQ => fun v w =>
      mkWorld (attrs w) (_write_queue w) v (_read_data_queue w)
        (reader_thread_status w) (writer_thread_status w)
        (read_throttling w) (write_throttling w) (live w) (draws w)
  | ReadDataQ => fun v w =>
      mkWorld (attrs w) (_write_queue w) (_read_queue w) v
        (reader_thread_status w) (writer_thread_status w)
        (read_throttling w) (write_throttling w) (live w) (draws w)
  end.

Definition set_reader_thread_status (m : gmap nat Z) (w : World) : World :=
  mkWorld (attrs w) (_write_queue w) (_read_queue w) (_read_data_queue w)
    m (writer_thread_status w)
    (read_throttling w) (write_throttling w) (live w) (draws w).

Definition set_writer_thread_status (m : gmap nat Z) (w : World) : World :=
  mkWorld (attrs w) (_write_queue w) (_read_queue w) (_read_data_queue w)
    (reader_thread_status w) m
    (read_throttling w) (write_throttling w) (live w) (draws w).

Definition set_read_throttling (b : TokenBucket) (w : World) : World :=
  mkWorld (attrs w) (_write_queue w) (_read_queue w) (_read_data_queue w)
    (reader_thread_status w) (writer_thread_status w)
    b (write_throttling w) (live w) (draws w).

Definition set_write_throttling (b : TokenBucket) (w : World) : World :=
  mkWorld (attrs w) (_write_queue w) (_read_queue w) (_read_data_queue w)
    (reader_thread_status w) (writer_thread_status w)
    (read_throttling w) b (live w) (draws w).

Definition set_live (l : list tid) (w : World) : World :=
  mkWorld (attrs w) (_write_queue w) (_read_queue w) (_read_data_queue w)
    (reader_thread_status w) (writer_thread_status w)
    (read_throttling w) (write_throttling w) l (draws w).

Definition set_draws (n : nat) (w : World) : World :=
  mkWorld (attrs w) (_write_queue w) (_read_queue w) (_read_data_queue w)
    (reader_thread_status w) (writer_thread_status w)
    (read_throttling w) (write_throttling w) (live w) n.

(** ** Atomic actions *)

Inductive action : Type -> Type :=
| GetLastException : action (option exn)     (* self.last_exception *)
| GetFatalError : action (option exn)        (* self.fatal_error *)
| GetDefaultBlockSize : action Z             (* self.default_block_size *)
| GetWriterThreads : action (list tid)       (* self._writer_threads *)
| GetReaderThreads : action (list tid)       (* self._reader_threads *)
| Put (q : qname) (x : elem q) : action unit (* q.put(x) *)
| Get (q : qname) (timeout : option Z) : action (elem q)
                                             (* q.get(timeout=...) *)
| TaskDone (q : qname) : action unit         (* q.task_done() *)
| Join (q : qname) : action unit             (* q.join() *)
| QSize (q : qname) : action Z               (* q.qsize() *)
| ThreadJoin (t : tid) : action unit         (* thread.join() *)
| SetWriterStatus (i : nat) (st : Z) : action unit
| SetReaderStatus (i : nat) (st : Z) : action unit
| ConsumeWrite (n : nat) : action seconds    (* write_throttling.consume(n) *)
| ConsumeRead (n : nat) : action seconds     (* read_throttling.consume(n) *)
| Sleep (d : seconds) : action unit          (* time.sleep(d) *)
| Log (msg : string) : action unit           (* logger.debug(...) *)
| ShortUuid : action string.                 (* shortuuid.uuid() *)

(** [get(timeout=t)] refuses a negative [t]. *)
Definition negative (timeout : option Z) : bool :=
match timeout with
| Some t => t <? 0
| None => false
end.

Inductive outcome (X : Type) : Type :=
| Ok (x : X) (w : World)
| Err (e : exn) (w : World)
| Wait.
Arguments Ok {X} x w.
Arguments Err {X} e w.
Arguments Wait {X}.

Definition exec {X : Type} (a : action X) (w : World) : outcome X :=
  match a in action X return outcome X with
  | GetLastException =>
      match last_exception (attrs w) with
      | Unset => Err (AttributeError "last_exception") w
      | Assigned v => Ok v w
      end
  | GetFatalError => Ok (fatal_error (attrs w)) w
  | GetDefaultBlockSize => Ok (default_block_size (attrs w)) w
  | GetWriterThreads => Ok (_writer_threads (attrs w)) w
  | GetReaderThreads => Ok (_reader_threads (attrs w)) w
  | Put q x =>
      match q_put x (getq q w) with
      | Some q' => Ok tt (setq q q' w)
      | None => Wait
      end
  | Get q timeout =>
      if negative timeout
      then Err (ValueError "'timeout' must be a non-negative number") w
      else
        match q_get (getq q w) with
        | Some (x, q') => Ok x (setq q q' w)
        | None => Wait
        end
  | TaskDone q =>
      match q_task_done (getq q w) with
      | inr q' => Ok tt (setq q q' w)
      | inl e => Err e w
      end
  | Join q => if q_joinable (getq q w) then Ok tt w else Wait
  | QSize q => Ok (qsize (getq q w)) w
  | ThreadJoin t => if decide (t ∈ live w) then Wait else Ok tt w
  | SetWriterStatus i st =>
      Ok tt (set_writer_thread_status (<[i:=st]> (writer_thread_status w)) w)
  | SetReaderStatus i st =>
      Ok tt (set_reader_thread_status (<[i:=st]> (reader_thread_status w)) w)
  | ConsumeWrite n =>
      let '(d, b) := consume n (write_throttling w) in
      Ok d (set_write_throttling b w)
  | ConsumeRead n =>
      let '(d, b) := consume n (read_throttling w) in
      Ok d (set_read_throttling b w)
  | Sleep _ => Ok tt w
  | Log _ => Ok tt w
  | ShortUuid => Ok (shortuuid_uuid (draws w)) (set_draws (S (draws w)) w)
  end.

(** A wait with a time budget ends with an exception when the budget is
    used up: [get(timeout=t)] raises [queue.Empty]. Other waits have no
    budget. *)
Definition expire {X : Type} (a : action X) : option exn :=
  match a with
  | Get _ (Some _) => Some queue_Empty
  | _ => None
  end.

(** ** Programs *)

Inductive Prog (R : Type) : Type :=
| Ret (r : R)
| Raise (e : exn)
| Do {X : Type} (a : action X) (k : X -> Prog R).
Arguments Ret {R} r.
Arguments Raise {R} e.
Arguments Do {R X} a k.

Fixpoint bind {R S : Type} (p : Prog R) (f : R -> Prog S) : Prog S :=
  match p with
  | Ret r => f r
  | Raise e => Raise e
  | Do a k => Do a (fun x => bind (k x) f)
  end.

Definition call {X : Type} (a : action X) : Prog X := Do a Ret.

(** [for x in l: body(x)] *)
Fixpoint for_each {A : Type} (l : list A) (body : A -> Prog unit) : Prog unit :=
  match l with
  | [] => Ret tt
  | x :: l' => bind (body x) (fun _ => for_each l' body)
  end.

(** Reading a local variable that may not have been assigned yet. *)
Definition local {A : Type} (name : string) (v : option A) : Prog A :=
  match v with
  | Some a => Ret a
  | None => Raise (UnboundLocalError name)
  end.

(** The thread runs a program until it returns, raises, or has to wait. *)
Inductive result (R : Type) : Type :=
| Returned (r : R) (w : World)
| Raised (e : exn) (w : World)
| Blocked (p : Prog R) (w : World).
Arguments Returned {R} r w.
Arguments Raised {R} e w.
Arguments Blocked {R} p w.

Fixpoint run {R : Type} (p : Prog R) (w : World) : result R :=
  match p with
  | Ret r => Returned r w
  | Raise e => Raised e w
  | Do a k =>
      match exec a w with
      | Ok x w' => run (k x) w'
      | Err e w' => Raised e w'
      | Wait => Blocked p w
      end
  end.

(** What a waiting program becomes when its time budget is used up. *)
Definition timed_out {R : Type} (p : Prog R) : option (Prog R) :=
  match p with
  | Do a _ => match expire a with Some e => Some (Raise e) | None => None end
  | _ => None
  end.

(** The time budget of the wait that a program is at: the [timeout] of
    its [get], in seconds; [None] is a wait without a budget. *)
Definition budget {R : Type} (p : Prog R) : option Z :=
  match p with
  | Do a _ =>
      match a with
      | Get _ timeout => timeout
      | _ => None
      end
  | _ => None
  end.

End Model.

Arguments Ok {Ext X} x w.
Arguments Err {Ext X} e w.
Arguments Wait {Ext X}.
Arguments Ret {Ext R} r.
Arguments Raise {Ext R} e.
Arguments Do {Ext R X} a k.
Arguments Returned {Ext R} r w.
Arguments Raised {Ext R} e w.
Arguments Blocked {Ext R} p w.

Declare Scope prog_scope.
Delimit Scope prog_scope with prog.
Bind Scope prog_scope with Prog.
Notation "x <- p ;; k" := (bind p (fun x => k))
  (at level 100, p at next level, right associativity) : prog_scope.
Notation "p ;; k" := (bind p (fun _ => k))
  (at level 100, right associativity) : prog_scope.
Local Open Scope prog_scope.

(** [len(data)] *)
Definition len (data : bytes) : nat := length data.

(** ** The base class, [backy2/data_backends/__init__.py] *)

Module Base.
Section WithExternals.
Context `{Ext : Externals}.

Definition _uid : Prog string :=
  suuid <- call ShortUuid ;;
  match encode_ascii suuid with
  | inl e => Raise e
  | inr b =>
      let hash := md5_hexdigest b in
      Ret (substring 0 10 hash ++ suuid)%string
  end.

Definition save (data : bytes) (_sync : bool) (callback : option callback)
  : Prog string :=
  last_exception <- call GetLastException ;;
  match last_exception with
  | Some e => Raise e
  | None =>
      uid <- _uid ;;
      call (Put WriteQ (Some (Entry3 uid data callback))) ;;
      (if _sync then call (Join WriteQ) else Ret tt) ;;
      Ret uid
  end.

Definition update (uid : string) (data : bytes) (offset : Z) : Prog pyval :=
  Raise NotImplementedError.

Definition read_get (timeout : Z)
  : Prog (Block.t * Z * nat * option bytes) :=
  last_exception <- call GetLastException ;;
  match last_exception with
  | Some e => Raise e
  | None =>
      item <- call (Get ReadDataQ (Some timeout)) ;;
      let '(block, data) := item in
      let offset := 0%Z in
      match data with
      | None => Raise no_len
      | Some d =>
          let length := len d in
          call (TaskDone ReadDataQ) ;;
          Ret (block, offset, length, data)
      end
  end.

(** [self.read_get()] is looked up on the object: [self_read_get] is the
    [read_get] of the object's class, called with no argument. *)
Definition read (self_read_get : Prog (Block.t * Z * nat * option bytes))
    (block : Block.t) (sync : bool) : Prog pyval :=
  call (Put ReadQ (Some block)) ;;
  if sync then
    got <- self_read_get ;;
    let '(rblock, offset, length, data) := got in
    if negb (Block.id rblock =? Block.id block)%Z then
      Raise (RuntimeError "Do not mix threaded reading with sync reading!")
    else
      match data with
      | None =>
          Raise (FileNotFoundError ("UID " ++ Block.uid block ++ " not found."))
      | Some d => Ret (PyBytes d)
      end
  else Ret PyNone.

Definition read_raw (uid : string) (offset : Z) (length : option Z) : Prog pyval :=
  Raise NotImplementedError.

Definition rm (uid : string) : Prog pyval := Raise NotImplementedError.

Definition rm_many (uids : list string) : Prog pyval := Raise NotImplementedError.

Definition get_all_blob_uids (prefix : option string) : Prog pyval :=
  Raise NotImplementedError.

Definition close : Prog unit :=
  _writer_threads <- call GetWriterThreads ;;
  for_each _writer_threads (fun _writer_thread => call (Put WriteQ None)) ;;
  _writer_threads <- call GetWriterThreads ;;
  for_each _writer_threads (fun _writer_thread => call (ThreadJoin _writer_thread)) ;;
  _reader_threads <- call GetReaderThreads ;;
  for_each _reader_threads (fun _reader_thread => call (Put ReadQ None)) ;;
  _reader_threads <- call GetReaderThreads ;;
  for_each _reader_threads (fun _reader_thread => call (ThreadJoin _reader_thread)).

End WithExternals.
End Base.

(** ** The null backend, [backy2/data_backends/null.py] *)

(** The configuration object: the items of its [DEFAULTS] section, which
    are strings, and the integer options of the backend's own section. *)
Record Config : Type := mkConfig {
  DEFAULTS : list (string * string);
  options : gmap string Z
}.

(** [config.getint(key, default)] *)
Definition getint (config : Config) (key : string) (default : Z) : Z :=
  match options config !! key with
  | Some v => v
  | None => default
  end.

(** [range(n)] *)
Definition range (n : Z) : list nat := seq 0 (Z.to_nat n).

(** What one pass through the body of a worker's [while True] ends with. *)
Inductive ctl : Type := Continue | Break.

Module Null.
Section WithExternals.
Context `{Ext : Externals}.

Definition WRITE_QUEUE_LENGTH : Z := 20.
Definition READ_QUEUE_LENGTH : Z := 20.

Definition _SUPPORTS_PARTIAL_READS : bool := false.
Definition _SUPPORTS_PARTIAL_WRITES : bool := false.

(** [config.items('DEFAULTS')] gives strings, and the block size is
    [int(...)] of the first item whose key is [block_size]. The threads
    are started inside the constructor; they are the [live] threads of the
    world it returns, each at the top of its loop. *)
Definition __init__ (config : Config) : exn + World :=
  match filter (fun kv => String.eqb (fst kv) "block_size") (DEFAULTS config) with
  | [] => inl (IndexError "list index out of range")
  | (_, value) :: _ =>
      match int value with
      | inl e => inl e
      | inr default_block_size =>
          let simultaneous_writes := getint config "simultaneous_writes" 1 in
          let simultaneous_reads := getint config "simultaneous_reads" 1 in
          let bandwidth_read := getint config "bandwidth_read" 0 in
          let bandwidth_write := getint config "bandwidth_write" 0 in
          let read_throttling := set_rate bandwidth_read TokenBucket_new in
          let write_throttling := set_rate bandwidth_write TokenBucket_new in
          let write_queue_length := simultaneous_writes + WRITE_QUEUE_LENGTH in
          let read_queue_length := simultaneous_reads + READ_QUEUE_LENGTH in
          let _write_queue := Queue_new write_queue_length in
          let _read_queue := Queue_new 0 in
          let _read_data_queue := Queue_new read_queue_length in
          let _writer_threads := map WriterThread (range simultaneous_writes) in
          let writer_thread_status : gmap nat Z :=
            list_to_map (map (fun i => (i, STATUS_NOTHING)) (range simultaneous_writes)) in
          let _reader_threads := map ReaderThread (range simultaneous_reads) in
          let reader_thread_status : gmap nat Z :=
            list_to_map (map (fun i => (i, STATUS_NOTHING)) (range simultaneous_reads)) in
          inr (mkWorld
                 (mkAttrs Unset None default_block_size
                    write_queue_length read_queue_length
                    _writer_threads _reader_threads)
                 _write_queue _read_queue _read_data_queue
                 reader_thread_status writer_thread_status
                 read_throttling write_throttling
                 (_writer_threads ++ _reader_threads) 0)
      end
  end.

(** One pass through the body of [_writer]'s [while True]. *)
Definition _writer (id_ : nat) : Prog ctl :=
  entry <- call (Get WriteQ None) ;;
  match entry with
  | None => call (Log "Writer finishing.") ;; Ret Break
  | Some entry =>
      fatal_error <- call GetFatalError ;;
      match fatal_error with
      | Some _ => call (Log "Writer finishing.") ;; Ret Break
      | None =>
          match entry with
          | Entry3 _ _ _ =>
              Raise (ValueError "too many values to unpack (expected 2)")
          | Entry2 uid data =>
              call (SetWriterStatus id_ STATUS_THROTTLING) ;;
              d <- call (ConsumeWrite (len data)) ;;
              call (Sleep d) ;;
              call (SetWriterStatus id_ STATUS_NOTHING) ;;
              call (SetWriterStatus id_ STATUS_WRITING) ;;
              call (SetWriterStatus id_ STATUS_NOTHING) ;;
              call (TaskDone WriteQ) ;;
              call (Log "Writer wrote data async.") ;;
              Ret Continue
          end
      end
  end.

Definition read_raw (block_id : Z) (block_size : Z) : bytes :=
  generate_block block_id block_size.

(** One pass through the body of [_reader]'s [while True]. *)
Definition _reader (id_ : nat) : Prog ctl :=
  block <- call (Get ReadQ None) ;;
  match block with
  | None => call (Log "Reader finishing.") ;; Ret Break
  | Some block =>
      fatal_error <- call GetFatalError ;;
      match fatal_error with
      | Some _ => call (Log "Reader finishing.") ;; Ret Break
      | None =>
          call (SetReaderStatus id_ STATUS_READING) ;;
          let data := read_raw (Block.id block) (Block.size block) in
          call (SetReaderStatus id_ STATUS_THROTTLING) ;;
          d <- call (ConsumeRead (len data)) ;;
          call (Sleep d) ;;
          call (SetReaderStatus id_ STATUS_NOTHING) ;;
          call (Put ReadDataQ (block, Some data)) ;;
          call (TaskDone ReadQ) ;;
          call (Log "Reader read data async.") ;;
          Ret Continue
      end
  end.

Definition _uid : Prog string :=
  suuid <- call ShortUuid ;;
  match encode_ascii suuid with
  | inl e => Raise e
  | inr b =>
      let hash := md5_hexdigest b in
      Ret (substring 0 10 hash ++ suuid)%string
  end.

Definition save (data : bytes) (_sync : bool) : Prog string :=
  fatal_error <- call GetFatalError ;;
  match fatal_error with
  | Some e => Raise e
  | None =>
      uid <- _uid ;;
      (* Don't save anything. *)
      Ret uid
  end.

Definition rm (uid : string) : Prog pyval := Ret PyNone.

Definition rm_many (uids : list string) : Prog pyval := Ret PyNone.

Definition read_get : Prog (Block.t * Z * nat * option bytes) :=
  item <- call (Get ReadDataQ None) ;;
  let '(block, data) := item in
  let offset := 0%Z in
  match data with
  | None => Raise no_len
  | Some d =>
      let length := len d in
      call (TaskDone ReadDataQ) ;;
      Ret (block, offset, length, data)
  end.

(** [rblock] is a local variable of [read] that is read before the
    statement that assigns it. *)
Definition read (block : Block.t) (sync : bool) : Prog pyval :=
  call (Put ReadQ (Some block)) ;;
  if sync then
    let unassigned : option Block.t := None in
    rblock <- local "rblock" unassigned ;;
    if negb (Block.id rblock =? Block.id block)%Z then
      Raise (RuntimeError "Do not mix threaded reading with sync reading!")
    else
      got <- read_get ;;
      default_block_size <- call GetDefaultBlockSize ;;
      Ret (PyStr (str_repeat " " (Z.to_nat default_block_size)))
  else Ret PyNone.

Definition read_queue_size : Prog Z := call (QSize ReadQ).

Definition get_all_blob_uids (prefix : option string) : Prog (list string) :=
  Ret [].

Definition close : Prog unit :=
  _writer_threads <- call GetWriterThreads ;;
  for_each _writer_threads (fun _writer_thread => call (Put WriteQ None)) ;;
  _writer_threads <- call GetWriterThreads ;;
  for_each _writer_threads (fun _writer_thread => call (ThreadJoin _writer_thread)) ;;
  _reader_threads <- call GetReaderThreads ;;
  for_each _reader_threads (fun _reader_thread => call (Put ReadQ None)) ;;
  _reader_threads <- call GetReaderThreads ;;
  for_each _reader_threads (fun _reader_thread => call (ThreadJoin _reader_thread)).

End WithExternals.
End Null.

(** ** Method lookup

    The class of the object that a method of the base class is called on:
    the base class itself or a subclass that inherits its [read_get], or
    the null backend, which overrides it. *)
Inductive klass : Type := BaseDataBackend | NullDataBackend.

Section Lookup.
Context `{Ext : Externals}.

(** [self.read_get()]; the base class's [timeout] defaults to 30. *)
Definition self_read_get (self : klass)
  : Prog (Block.t * Z * nat * option bytes) :=
  match self with
  | BaseDataBackend => Base.read_get 30
  | NullDataBackend => Null.read_get
  end.

End Lookup.

(** ** The threads of a running backend *)

Section Threads.
Context `{Ext : Externals}.

(** The loop body that a worker thread repeats. *)
Definition body (t : tid) : Prog ctl :=
  match t with
  | WriterThread i => Null._writer i
  | ReaderThread i => Null._reader i
  end.

(** The thread [t] has ended. *)
Definition finish (t : tid) (w : World) : World :=
  set_live (filter (fun t' => t' <> t) (live w)) w.

(** The public methods that a client thread calls. *)
Inductive api : forall {R : Type}, Prog R -> Prop :=
| api_Base_save data _sync callback : api (Base.save data _sync callback)
| api_Base_update uid data offset : api (Base.update uid data offset)
| api_Base_read self block sync :
    api (Base.read (self_read_get self) block sync)
| api_Base_read_get timeout : api (Base.read_get timeout)
| api_Base_read_raw uid offset length : api (Base.read_raw uid offset length)
| api_Base_rm uid : api (Base.rm uid)
| api_Base_rm_many uids : api (Base.rm_many uids)
| api_Base_get_all_blob_uids prefix : api (Base.get_all_blob_uids prefix)
| api_Base_close : api Base.close
| api_Null_save data _sync : api (Null.save data _sync)
| api_Null_rm uid : api (Null.rm uid)
| api_Null_rm_many uids : api (Null.rm_many uids)
| api_Null_read_get : api Null.read_get
| api_Null_read block sync : api (Null.read block sync)
| api_Null_read_queue_size : api Null.read_queue_size
| api_Null_get_all_blob_uids prefix : api (Null.get_all_blob_uids prefix)
| api_Null_close : api Null.close.

(** An action that a thread has performed. *)
Inductive event : Type :=
| Ev {X : Type} (a : action X).

(** A worker thread is at some point of a pass through its loop; a client
    thread is at some point of a method call. *)
Inductive thread : Type :=
| Worker (t : tid) (pc : Prog ctl)
| Client {R : Type} (pc : Prog R).

(** What a thread can do next: perform the action at the head of its
    program, wait (with the exception that the wait ends with when it has
    a time budget), or nothing when the program is over. An exception
    raised by the action is the program's. *)
Inductive progress (R : Type) : Type :=
| Advance (ev : event) (p : Prog R) (w : World)
| Stuck (deadline : option exn)
| Over.

Definition head_step {R : Type} (p : Prog R) (w : World) : progress R :=
  match p with
  | Do a k =>
      match exec a w with
      | Ok x w' => Advance R (Ev a) (k x) w'
      | Err e w' => Advance R (Ev a) (Raise e) w'
      | Wait => Stuck R (expire a)
      end
  | _ => Over R
  end.

(** One atomic step of one thread. A worker that leaves its loop, or
    that an exception escapes from, ends; a client whose call is over
    makes another call. *)
Inductive thread_step (w : World) : thread -> World -> option thread -> Prop :=
| step_worker t pc ev pc' w' :
    head_step pc w = Advance ctl ev pc' w' ->
    thread_step w (Worker t pc) w' (Some (Worker t pc'))
| step_worker_expire t pc e :
    head_step pc w = Stuck ctl (Some e) ->
    thread_step w (Worker t pc) w (Some (Worker t (Raise e)))
| step_worker_raise t e :
    thread_step w (Worker t (Raise e)) (finish t w) None
| step_worker_break t :
    thread_step w (Worker t (Ret Break)) (finish t w) None
| step_worker_continue t :
    thread_step w (Worker t (Ret Continue)) w (Some (Worker t (body t)))
| step_client R (pc : Prog R) ev pc' w' :
    head_step pc w = Advance R ev pc' w' ->
    thread_step w (Client pc) w' (Some (Client pc'))
| step_client_expire R (pc : Prog R) e :
    head_step pc w = Stuck R (Some e) ->
    thread_step w (Client pc) w (Some (Client (Raise e : Prog R)))
| step_client_call R (pc : Prog R) R' (p : Prog R') :
    head_step pc w = Over R -> api p ->
    thread_step w (Client pc) w (Some (Client p)).

Record System : Type := mkSystem {
  world : World;
  threads : list thread
}.

Inductive sys_step : System -> System -> Prop :=
| sys_step_thread s i th w' th' :
    threads s !! i = Some th ->
    thread_step (world s) th w' th' ->
    sys_step s (mkSystem w'
                  match th' with
                  | Some th'' => <[i:=th'']> (threads s)
                  | None => delete i (threads s)
                  end).

(** The system right after construction: every worker at the top of its
    loop, and [clients] client threads that have not called anything. *)
Definition boot (w : World) (clients : nat) : System :=
  mkSystem w (map (fun t => Worker t (body t)) (live w)
              ++ replicate clients (Client (Ret tt))).

(** ** What one thread does while the others go on

    [runs rely p w tr p' w']: the thread runs [p] from [w], the other
    threads changing the world by [rely] in between, and gets to [p'] in
    [w']; [tr] lists the actions it performed, each with the world it was
    performed in. *)
Inductive runs (rely : World -> World -> Prop) {R : Type}
  : Prog R -> World -> list (event * World) -> Prog R -> World -> Prop :=
| runs_here p w : runs rely p w [] p w
| runs_rely p w w1 tr p' w' :
    rely w w1 -> runs rely p w1 tr p' w' -> runs rely p w tr p' w'
| runs_step p w ev p1 w1 tr p' w' :
    head_step p w = Advance R ev p1 w1 -> runs rely p1 w1 tr p' w' ->
    runs rely p w ((ev, w) :: tr) p' w'.

(** What the other threads may do to the world as far as [close] is
    concerned: the attributes stay, and no thread is started. *)
Definition others (w w' : World) : Prop :=
  attrs w' = attrs w /\ live w' ⊆ live w.

(** A program that never performs an action in [P]. *)
Inductive avoids (P : event -> Prop) {R : Type} : Prog R -> Prop :=
| avoids_Ret r : avoids P (Ret r)
| avoids_Raise e : avoids P (Raise e)
| avoids_Do X (a : action X) k :
    ~ P (Ev a) -> (forall x, avoids P (k x)) -> avoids P (Do a k).

(** A program that has not returned. *)
Inductive unfinished {R : Type} : Prog R -> Prop :=
| unfinished_Raise e : unfinished (Raise e)
| unfinished_Do X (a : action X) k : unfinished (Do a k).

Definition takes_from_read_queue (e : event) : Prop :=
  match e with
  | Ev (Get ReadQ _) => True
  | _ => False
  end.

Definition reads_latch (e : event) : Prop :=
  match e with
  | Ev GetLastException | Ev GetFatalError => True
  | _ => False
  end.

Definition is_reader (th : thread) : Prop :=
  match th with
  | Worker (ReaderThread _) _ => True
  | _ => False
  end.

(** The programs a thread of a running backend can be at: somewhere in
    its loop body or in a public method. *)
Definition well_behaved (th : thread) : Prop :=
  match th with
  | Worker (WriterThread _) pc => avoids takes_from_read_queue pc
  | Worker (ReaderThread _) _ => True
  | Client pc => avoids takes_from_read_queue pc
  end.

End Threads.

Arguments Client {Ext R} pc.
Arguments Ev {Ext X} a.
Arguments Advance {Ext R} ev p w.
Arguments Stuck {Ext R} deadline.
Arguments Over {Ext R}.

(** ** Reference collaborators

    Concrete collaborators on which the programs can be evaluated:
    MD5 as in RFC 1321, shortuuid's encoding of a 128-bit integer over its
    57-character alphabet, and plain stand-ins for the token bucket and
    for [generate_block]. *)

Module MD5.
Definition mask32 (x : Z) : Z := Z.land x 0xFFFFFFFF.

Definition rotl32 (x : Z) (c : Z) : Z :=
  mask32 (Z.lor (Z.shiftl x c) (Z.shiftr x (32 - c))).

Definition shifts : list Z :=
  [7; 12; 17; 22; 7; 12; 17; 22; 7; 12; 17; 22; 7; 12; 17; 22;
   5; 9; 14; 20; 5; 9; 14; 20; 5; 9; 14; 20; 5; 9; 14; 20;
   4; 11; 16; 23; 4; 11; 16; 23; 4; 11; 16; 23; 4; 11; 16; 23;
   6; 10; 15; 21; 6; 10; 15; 21; 6; 10; 15; 21; 6; 10; 15; 21].

Definition sines : list Z :=
  [0xd76aa478; 0xe8c7b756; 0x242070db; 0xc1bdceee;
   0xf57c0faf; 0x4787c62a; 0xa8304613; 0xfd469501;
   0x698098d8; 0x8b44f7af; 0xffff5bb1; 0x895cd7be;
   0x6b901122; 0xfd987193; 0xa679438e; 0x49b40821;
   0xf61e2562; 0xc040b340; 0x265e5a51; 0xe9b6c7aa;
   0xd62f105d; 0x02441453; 0xd8a1e681; 0xe7d3fbc8;
   0x21e1cde6; 0xc33707d6; 0xf4d50d87; 0x455a14ed;
   0xa9e3e905; 0xfcefa3f8; 0x676f02d9; 0x8d2a4c8a;
   0xfffa3942; 0x8771f681; 0x6d9d6122; 0xfde5380c;
   0xa4beea44; 0x4bdecfa9; 0xf6bb4b60; 0xbebfbc70;
   0x289b7ec6; 0xeaa127fa; 0xd4ef3085; 0x04881d05;
   0xd9d4d039; 0xe6db99e5; 0x1fa27cf8; 0xc4ac5665;
   0xf4292244; 0x432aff97; 0xab9423a7; 0xfc93a039;
   0x655b59c3; 0x8f0ccc92; 0xffeff47d; 0x85845dd1;
   0x6fa87e4f; 0xfe2ce6e0; 0xa3014314; 0x4e0811a1;
   0xf7537e82; 0xbd3af235; 0x2ad7d2bb; 0xeb86d391].

(** The message, a 1 bit, zeros up to 56 mod 64, the bit length on 8
    bytes, least significant first. *)
Definition pad (msg : list Z) : list Z :=
  let n := Z.of_nat (length msg) in
  let zeros := Z.to_nat ((55 - n) mod 64) in
  msg ++ [0x80] ++ repeat 0 zeros
      ++ map (fun i => Z.land (Z.shiftr (8 * n) (8 * Z.of_nat i)) 0xFF) (seq 0 8).

Definition word_le (b : list Z) : Z :=
  fold_right (fun x acc => x + 256 * acc) 0 b.

Fixpoint words (fuel : nat) (b : list Z) : list Z :=
  match fuel with
  | O => []
  | S fuel' =>
      match b with
      | [] => []
      | _ => word_le (firstn 4 b) :: words fuel' (skipn 4 b)
      end
  end.

Definition round (M : list Z) (st : Z * Z * Z * Z) (i : nat) : Z * Z * Z * Z :=
  let '(a, b, c, d) := st in
  let zi := Z.of_nat i in
  let '(f, g) :=
    match (i / 16)%nat with
    | 0%nat => (Z.lor (Z.land b c) (Z.land (Z.lxor b 0xFFFFFFFF) d), zi)
    | 1%nat => (Z.lor (Z.land d b) (Z.land (Z.lxor d 0xFFFFFFFF) c), (5 * zi + 1) mod 16)
    | 2%nat => (Z.lxor b (Z.lxor c d), (3 * zi + 5) mod 16)
    | _ => (Z.lxor c (Z.lor b (Z.lxor d 0xFFFFFFFF)), (7 * zi) mod 16)
    end in
  let f' := mask32 (f + a + nth i sines 0 + nth (Z.to_nat g) M 0) in
  (d, mask32 (b + rotl32 f' (nth i shifts 0)), b, c).

Definition compress (st : Z * Z * Z * Z) (M : list Z) : Z * Z * Z * Z :=
  let '(a0, b0, c0, d0) := st in
  let '(a, b, c, d) := fold_left (round M) (seq 0 64) st in
  (mask32 (a0 + a), mask32 (b0 + b), mask32 (c0 + c), mask32 (d0 + d)).

Fixpoint blocks (fuel : nat) (ws : list Z) (st : Z * Z * Z * Z) : Z * Z * Z * Z :=
  match fuel with
  | O => st
  | S fuel' =>
      match ws with
      | [] => st
      | _ => blocks fuel' (skipn 16 ws) (compress st (firstn 16 ws))
      end
  end.

Definition digest (msg : list Z) : list Z :=
  let p := pad msg in
  let ws := words (length p) p in
  let '(a, b, c, d) :=
    blocks (length ws) ws (0x67452301, 0xefcdab89, 0x98badcfe, 0x10325476) in
  flat_map
    (fun x => map (fun i => Z.land (Z.shiftr x (8 * Z.of_nat i)) 0xFF) (seq 0 4))
    [a; b; c; d].

Definition hex_digit (d : Z) : ascii :=
  nth (Z.to_nat d) (list_ascii_of_string "0123456789abcdef") "0"%char.

Definition hexdigest (msg : bytes) : string :=
  string_of_list_ascii
    (flat_map (fun b => [hex_digit (b / 16); hex_digit (b mod 16)])
       (digest (map (fun b => Z.of_N (Byte.to_N b)) msg))).
End MD5.

Module ShortUUID.
Definition alphabet : list ascii :=
  list_ascii_of_string "23456789ABCDEFGHJKLMNPQRSTUVWXYZabcdefghijkmnopqrstuvwxyz".

(** The digits of [number] in base 57, least significant first. *)
Fixpoint digits (fuel : nat) (number : N) : list ascii :=
  match fuel with
  | O => []
  | S fuel' =>
      if (number =? 0)%N then []
      else nth (N.to_nat (number mod 57)) alphabet "2"%char
             :: digits fuel' (number / 57)
  end.

Definition int_to_string (number : N) (padding : nat) : string :=
  let output := digits 128 number in
  let remainder := (padding - length output)%nat in
  string_of_list_ascii (rev (output ++ repeat "2"%char remainder)).

(** [encode] of a UUID, padded to 22 characters. *)
Definition encode (uuid_int : N) : string :=
  int_to_string (uuid_int mod 2 ^ 128) 22.
End ShortUUID.

(** Decimal literals with an optional sign, in place of [int]. *)
Module Literal.
Definition digit (c : ascii) : option Z :=
  let n := Z.of_N (N_of_ascii c) in
  if (48 <=? n) && (n <=? 57) then Some (n - 48) else None.

Fixpoint digits (acc : Z) (s : string) : option Z :=
  match s with
  | EmptyString => Some acc
  | String c s' =>
      match digit c with
      | Some d => digits (10 * acc + d) s'
      | None => None
      end
  end.

Definition unsigned (s : string) : option Z :=
  match s with
  | EmptyString => None
  | _ => digits 0 s
  end.

Definition invalid (s : string) : exn :=
  ValueError ("invalid literal for int() with base 10: '" ++ s ++ "'").

Definition parse (s : string) : exn + Z :=
  match s with
  | String "-" s' =>
      match unsigned s' with
      | Some n => inr (- n)
      | None => inl (invalid s)
      end
  | String "+" s' =>
      match unsigned s' with
      | Some n => inr n
      | None => inl (invalid s)
      end
  | _ =>
      match unsigned s with
      | Some n => inr n
      | None => inl (invalid s)
      end
  end.
End Literal.

Module Fixture.

(** A fixed sequence of 128-bit numbers in place of [uuid4()]. *)
Definition uuid4_int (k : nat) : N :=
  ((N.of_nat k + 1) * 0x9E3779B97F4A7C15F39CC0605CEDC835) mod 2 ^ 128.

(** A bucket is its rate; rate 0 never asks for a sleep. *)
Definition externals : Externals := {|
  int := Literal.parse;
  callback := string;
  seconds := Z;
  TokenBucket := Z;
  TokenBucket_new := 0;
  set_rate := fun rate _ => rate;
  consume := fun n rate =>
    (if rate =? 0 then 0 else Z.of_nat n / rate, rate);
  generate_block := fun block_id block_size =>
    repeat (Byte.x00) (Z.to_nat block_size);
  shortuuid_uuid := fun k => ShortUUID.encode (uuid4_int k);
  md5_hexdigest := MD5.hexdigest
|}.

Definition config : Config :=
  mkConfig [("block_size"%string, "4096"%string)]
    (<["simultaneous_writes"%string := 2]> (<["simultaneous_reads"%string := 1]> ∅)).

Definition hello : bytes := list_byte_of_string "hello".

#[local] Existing Instance externals.

Definition blank : World :=
  mkWorld (mkAttrs Unset None 0 0 0 [] [])
    (Queue_new 0) (Queue_new 0) (Queue_new 0) ∅ ∅ 0 0 [] 0%nat.

(** The null backend as its constructor leaves it. *)
Definition null_backend : World :=
  match Null.__init__ config with
  | inr w => w
  | inl _ => blank
  end.

Definition set_attrs (a : Attrs) (w : World) : World :=
  mkWorld a (_write_queue w) (_read_queue w) (_read_data_queue w)
    (reader_thread_status w) (writer_thread_status w)
    (read_throttling w) (write_throttling w) (live w) (draws w).

(** A backend whose constructor has also assigned [self.last_exception],
    as the base class's [save] and [read_get] need. *)
Definition with_last_exception (v : option exn) (w : World) : World :=
  let a := attrs w in
  set_attrs (mkAttrs (Assigned v) (fatal_error a) (default_block_size a)
               (write_queue_length a) (read_queue_length a)
               (_writer_threads a) (_reader_threads a)) w.

Definition with_fatal_error (v : option exn) (w : World) : World :=
  let a := attrs w in
  set_attrs (mkAttrs (last_exception a) v (default_block_size a)
               (write_queue_length a) (read_queue_length a)
               (_writer_threads a) (_reader_threads a)) w.

Definition backend : World := with_last_exception None null_backend.

(** The uid that the first call of [_uid] makes. *)
Definition uid0 : string := "6eb5814672WAZfCyu2HzWzNAcfwFKCt6".

Definition block1 : Block.t := Block.mk 1 uid0 5.

(** A backend whose workers have all ended. *)
Definition stopped (w : World) : World := set_live [] w.

(** A backend whose read-result queue holds one completed result. *)
Definition delivered (item : Block.t * option bytes) (w : World) : World :=
  setq ReadDataQ (mkQueue [item] (maxsize (_read_data_queue w)) 1) w.

Definition connection_lost : exn := Exception "connection lost".

Definition failed_backend : World :=
  with_last_exception (Some connection_lost) null_backend.

End Fixture.

(** ** Vocabulary of the statements *)

Section Vocabulary.
Context `{Ext : Externals}.

(** What [_uid] makes of the token it has drawn. *)
Definition uid_of_token (suuid : string) : exn + string :=
  match encode_ascii suuid with
  | inl e => inl e
  | inr b => inr (substring 0 10 (md5_hexdigest b) ++ suuid)%string
  end.

(** The world after one more call of [shortuuid.uuid()]. *)
Definition drawn (w : World) : World := set_draws (S (draws w)) w.

(** The world after [q.put(x)] went through. *)
Definition enqueued (q : qname) (x : elem q) (w : World) : World :=
  setq q (mkQueue (queue (getq q w) ++ [x]) (maxsize (getq q w))
            (unfinished_tasks (getq q w) + 1)) w.

(** The world after [q.get()] took the oldest item. *)
Definition dequeued (q : qname) (w : World) : World :=
  setq q (mkQueue (tail (queue (getq q w))) (maxsize (getq q w))
            (unfinished_tasks (getq q w))) w.

(** The world after [q.task_done()] went through. *)
Definition marked_done (q : qname) (w : World) : World :=
  setq q (mkQueue (queue (getq q w)) (maxsize (getq q w))
            (unfinished_tasks (getq q w) - 1)) w.

(** [q.put] can go through [n] more times without waiting. *)
Definition room {A : Type} (n : nat) (q : Queue A) : Prop :=
  maxsize q <= 0 \/ qsize q + Z.of_nat n <= maxsize q.

(** The capacities the three queues were created with. *)
Definition capacities (w : World) : Z * Z * Z :=
  (maxsize (_write_queue w), maxsize (_read_queue w), maxsize (_read_data_queue w)).

(** The actions of a call of [close] on a backend with writer threads
    [ws] and reader threads [rs], in order. *)
Definition close_events (ws rs : list tid) : list event :=
  [Ev GetWriterThreads] ++ map (fun _ => Ev (Put WriteQ None)) ws
  ++ [Ev GetWriterThreads] ++ map (fun t => Ev (ThreadJoin t)) ws
  ++ [Ev GetReaderThreads] ++ map (fun _ => Ev (Put ReadQ None)) rs
  ++ [Ev GetReaderThreads] ++ map (fun t => Ev (ThreadJoin t)) rs.

(** The part of [read_get] from its [get] on, with the time budget
    [t] ([None] for the null backend, which passes none). *)
Definition from_get (t : option Z) : Prog (Block.t * Z * nat * option bytes) :=
  item <- call (Get ReadDataQ t) ;;
  let '(block, data) := item in
  match data with
  | None => Raise no_len
  | Some d => call (TaskDone ReadDataQ) ;; Ret (block, 0, len d, data)
  end.

(** [p] waits until the world is [ready], and then goes on as [next]. *)
Definition awaits {R : Type} (p : Prog R) (ready : World -> bool)
    (next : World -> result R) : Prop :=
  forall w, run p w = if ready w then next w else Blocked p w.


(** The world after a pass of writer [id_] over a job of [n] bytes. *)
Definition written (id_ : nat) (n : nat) (w : World) : World :=
  let w1 := dequeued WriteQ w in
  let w2 :=
    set_write_throttling (snd (consume n (write_throttling w1)))
      (set_writer_thread_status
         (<[id_:=STATUS_THROTTLING]> (writer_thread_status w1)) w1) in
  let w3 :=
    set_writer_thread_status
      (<[id_:=STATUS_NOTHING]>
         (<[id_:=STATUS_WRITING]>
            (<[id_:=STATUS_NOTHING]> (writer_thread_status w2)))) w2 in
  marked_done WriteQ w3.

Definition puts_read_sentinel (e : event) : bool :=
  match e with
  | Ev (Put ReadQ None) => true
  | _ => false
  end.

Definition puts_write_sentinel (e : event) : bool :=
  match e with
  | Ev (Put WriteQ None) => true
  | _ => false
  end.

End Vocabulary.

(** [0-9a-f] *)
Definition is_hex_char (c : ascii) : bool :=
  let n := N_of_ascii c in
  ((48 <=? n) && (n <=? 57) || (97 <=? n) && (n <=? 102))%N.

(** [A-Za-z0-9] *)
Definition is_alnum_char (c : ascii) : bool :=
  let n := N_of_ascii c in
  ((48 <=? n) && (n <=? 57) || (65 <=? n) && (n <=? 90)
   || (97 <=? n) && (n <=? 122))%N.

(** The format [[0-9a-f]{10}[A-Za-z0-9]{22}]. *)
Definition matches_uid_format (s : string) : bool :=
  let l := list_ascii_of_string s in
  (length l =? 32)%nat
  && forallb is_hex_char (firstn 10 l)
  && forallb is_alnum_char (skipn 10 l).

(** What [shortuuid.uuid()] is taken to return: 22 characters of the
    alphabet. *)
Definition base57_token (s : string) : bool :=
  let l := list_ascii_of_string s in
  (length l =? 22)%nat
  && forallb (fun c => bool_decide (c ∈ ShortUUID.alphabet)) l.

(** What [hexdigest()] is taken to return: 32 hexadecimal characters. *)
Definition hexdigest_ok (h : string) : bool :=
  let l := list_ascii_of_string h in
  (length l =? 32)%nat && forallb is_hex_char l.


(** ** Vocabulary of the further properties *)

Section FurtherVocabulary.
Context `{Ext : Externals}.

(** The world after reader [id_] has taken a request and fetched [n]
    bytes for it: its status went to reading, to throttling and back to
    nothing, and the read throttle was charged [n] bytes. *)
Definition fetched (id_ : nat) (n : nat) (w : World) : World :=
  set_reader_thread_status
    (<[id_:=STATUS_NOTHING]>
       (<[id_:=STATUS_THROTTLING]>
          (<[id_:=STATUS_READING]> (reader_thread_status w))))
    (set_read_throttling (snd (consume n (read_throttling w)))
       (dequeued ReadQ w)).

(** What is left of a pass of a reader once it has put its result. *)
Definition after_delivery : Prog ctl :=
  call (TaskDone ReadQ) ;; call (Log "Reader read data async.") ;; Ret Continue.

(** What the reader fetches for a request, and what [read_get] returns
    for it. *)
Definition generated (block : Block.t) : bytes :=
  generate_block (Block.id block) (Block.size block).

Definition read_result (block : Block.t) : Block.t * Z * nat * option bytes :=
  (block, 0, len (generated block), Some (generated block)).

(** The calls [ps] made one after the other, each returning: what they
    return, and the world they leave. *)
Fixpoint run_all {R : Type} (ps : list (Prog R)) (w : World)
  : option (list R * World) :=
  match ps with
  | [] => Some ([], w)
  | p :: ps' =>
      match run p w with
      | Returned r w' =>
          match run_all ps' w' with
          | Some (rs, w'') => Some (r :: rs, w'')
          | None => None
          end
      | _ => None
      end
  end.

End FurtherVocabulary.

Section Invariants.
Context `{Ext : Externals}.

(** A queue holds no more items than its bound, and no more tasks have
    been marked done than were put. *)
Definition within_bound {A : Type} (q : Queue A) : Prop :=
  (maxsize q <= 0 \/ qsize q <= maxsize q) /\ 0 <= unfinished_tasks q.








(** A result put on the read-result queue that is not the generated
    block of its request. *)
Definition puts_other_result (e : event) : Prop :=
  match e with
  | Ev (Put ReadDataQ item) => item.2 <> Some (generated item.1)
  | _ => False
  end.

(** Every result that waits on the read-result queue is the generated
    block of its request. *)
Definition results_generated (w : World) : Prop :=
  Forall (fun item : Block.t * option bytes => item.2 = Some (generated item.1))
    (queue (_read_data_queue w)).

End Invariants.

(** ** The status reports

    [queue_status] and [thread_status] have the same text in both classes.
    They read the queues and the status maps one after the other and take
    no lock; they are embedded as what a call makes of one state. *)



(** What [a / b] raises when [b] is zero. *)
Definition ZeroDivisionError : exn := Exception "division by zero".

(** [a / b] on two [int]s. The quotient is kept exact; Python rounds it
    to the nearest float, which keeps its order with 0 and with 1. *)
Definition true_div (a b : Z) : exn + Q :=
  if b =? 0 then inl ZeroDivisionError
  else inr (inject_Z a / inject_Z b)%Q.

(** The dictionary that [queue_status] returns. *)
Record QueueStatus : Type := mkQueueStatus {
  rq_filled : Q;
  wq_filled : Q
}.

Section Reports.
Context `{Ext : Externals}.

Definition queue_status (w : World) : exn + QueueStatus :=
  match true_div (qsize (_read_data_queue w)) (maxsize (_read_data_queue w)) with
  | inl e => inl e
  | inr rq =>
      match true_div (qsize (_write_queue w)) (maxsize (_write_queue w)) with
      | inl e => inl e
      | inr wq => inr (mkQueueStatus rq wq)
      end
  end.


End Reports.

(** ** Exceptions that a call can end with *)

Section Raising.
Context `{Ext : Externals}.

Definition not_found (e : exn) : Prop :=
  match e with
  | FileNotFoundError _ => True
  | _ => False
  end.

(** Neither [last_exception] nor [fatal_error] holds an exception in [P]. *)
Definition latch_without (P : exn -> Prop) (w : World) : Prop :=
  (forall e, last_exception (attrs w) = Assigned (Some e) -> ~ P e)
  /\ (forall e, fatal_error (attrs w) = Some e -> ~ P e).

(** What an action can answer on such a backend. *)
Definition answer_without (P : exn -> Prop) {X : Type} (a : action X) : X -> Prop :=
  match a in action X return X -> Prop with
  | GetLastException | GetFatalError =>
      fun v => match v with Some e => ~ P e | None => True end
  | _ => fun _ => True
  end.

(** The program has no [raise] of an exception in [P], whatever its
    actions answer on such a backend. *)
Fixpoint never_raises (P : exn -> Prop) {R : Type} (p : Prog R) : Prop :=
  match p with
  | Ret _ => True
  | Raise e => ~ P e
  | Do a k => forall x, answer_without P a x -> never_raises P (k x)
  end.

End Raising.

(** ** Further cases on which the programs are evaluated *)

Module Cases.
#[local] Existing Instance Fixture.externals.

(** The uid that the second call of [_uid] makes. *)
Definition uid1 : string := "30efd08818CktVJAsbyfCuFXxzVY2Hc6".

Definition block2 : Block.t := Block.mk 2 uid1 7.

(** A configuration that asks for twenty reader threads less than none. *)
Definition no_room : Config :=
  mkConfig [("block_size"%string, "4096"%string)]
    (<["simultaneous_reads"%string := -20]> ∅).

(** A configuration without a block size. *)
Definition no_block_size : Config :=
  mkConfig [("hash_function"%string, "sha512"%string)] ∅.

(** A configuration whose block size is no number. *)
Definition bad_block_size : Config :=
  mkConfig [("block_size"%string, "4k"%string)] ∅.

(** The reference backend after an asynchronous read of the first block,
    and after a pass of reader 0 that has served the request. *)
Definition requested : World :=
  enqueued ReadQ (Some Fixture.block1) Fixture.null_backend.

Definition served : World :=
  marked_done ReadQ
    (enqueued ReadDataQ (Fixture.block1, Some (generated Fixture.block1))
       (fetched 0 (len (generated Fixture.block1)) requested)).

(** The null backend that the constructor makes of a configuration. *)
Definition constructed_with (config : Config) : World :=
  match Null.__init__ config with
  | inr w => w
  | inl _ => Fixture.blank
  end.

End Cases.

(** * Properties *)

(** ** Strings *)

Lemma list_ascii_of_string_app (s1 s2 : string) :
  list_ascii_of_string (s1 ++ s2) = list_ascii_of_string s1 ++ list_ascii_of_string s2.
Proof. induction s1 as [|c s1 IH]; simpl; [done | by rewrite IH]. Qed.

Lemma list_ascii_of_string_prefix (n : nat) (s : string) :
  list_ascii_of_string (substring 0 n s) = firstn n (list_ascii_of_string s).
Proof.
  revert s; induction n as [|n IH]; intros [|c s]; simpl; try done.
  by rewrite IH.
Qed.

Lemma string_length_list (s : string) :
  String.length s = length (list_ascii_of_string s).
Proof. induction s as [|c s IH]; simpl; [done | by rewrite IH]. Qed.

Lemma encode_ascii_total (s : string) :
  forallb is_ascii (list_ascii_of_string s) = true ->
  exists b, encode_ascii s = inr b.
Proof.
  induction s as [|c s IH]; simpl; [by eexists |].
  intros [Hc Hs]%andb_prop. rewrite Hc.
  destruct (IH Hs) as [b ->]. by eexists.
Qed.

(** A byte that [encode] makes of an ASCII character has the character's
    code, and the bytes of a string of ASCII characters are the bytes of
    its characters, in order. *)
Lemma byte_of_ascii_code (c : ascii) : Byte.to_N (byte_of_ascii c) = N_of_ascii c.
Proof. destruct c as [[] [] [] [] [] [] [] []]; reflexivity. Qed.

Lemma encode_ascii_bytes (s : string) :
  forallb is_ascii (list_ascii_of_string s) = true ->
  encode_ascii s = inr (list_byte_of_string s).
Proof.
  induction s as [|c s IH]; simpl; [done |].
  intros [Hc Hs]%andb_prop. by rewrite Hc, (IH Hs).
Qed.

Lemma list_byte_of_string_codes (s : string) :
  map Byte.to_N (list_byte_of_string s) = map N_of_ascii (list_ascii_of_string s).
Proof.
  induction s as [|c s IH]; simpl; [done |].
  by rewrite byte_of_ascii_code, <- IH.
Qed.

Lemma alphabet_alnum (c : ascii) :
  c ∈ ShortUUID.alphabet -> is_alnum_char c = true /\ is_ascii c = true.
Proof.
  intros Hc.
  assert (Hall : forallb (fun c => is_alnum_char c && is_ascii c)
                   ShortUUID.alphabet = true) by (vm_compute; reflexivity).
  rewrite forallb_forall in Hall.
  apply list_elem_of_In, Hall, andb_prop in Hc. exact Hc.
Qed.

Lemma forallb_weaken {A : Type} (f g : A -> bool) (l : list A) :
  (forall x, f x = true -> g x = true) ->
  forallb f l = true -> forallb g l = true.
Proof.
  intros Hfg. rewrite !forallb_forall. intros H x Hx. by apply Hfg, H.
Qed.

Lemma base57_token_chars (s : string) :
  base57_token s = true ->
  length (list_ascii_of_string s) = 22%nat
  /\ forallb is_alnum_char (list_ascii_of_string s) = true
  /\ forallb is_ascii (list_ascii_of_string s) = true.
Proof.
  unfold base57_token. intros [Hlen Hall]%andb_prop.
  apply Nat.eqb_eq in Hlen. split; [done |].
  split; (eapply forallb_weaken; [| exact Hall]); intros c Hc; simpl in Hc;
    apply bool_decide_eq_true, alphabet_alnum in Hc; by destruct Hc.
Qed.

(** ** Running programs *)

Section Running.
Context `{Ext : Externals}.

Lemma run_bind {R S : Type} (p : Prog R) (f : R -> Prog S) (w : World) :
  run (bind p f) w =
  match run p w with
  | Returned r w' => run (f r) w'
  | Raised e w' => Raised e w'
  | Blocked p' w' => Blocked (bind p' f) w'
  end.
Proof.
  revert w. induction p as [r | e | X a k IH]; intros w; simpl; try done.
  destruct (exec a w) as [x w' | e w' |]; [apply IH | done | done].
Qed.

Lemma run_Do {R X : Type} (a : action X) (k : X -> Prog R) (w : World) :
  run (Do a k) w =
  match exec a w with
  | Ok x w' => run (k x) w'
  | Err e w' => Raised e w'
  | Wait => Blocked (Do a k) w
  end.
Proof. reflexivity. Qed.

Lemma run_uid_Base (w : World) :
  run Base._uid w =
  match uid_of_token (shortuuid_uuid (draws w)) with
  | inr uid => Returned uid (drawn w)
  | inl e => Raised e (drawn w)
  end.
Proof.
  unfold Base._uid, uid_of_token. simpl.
  by destruct (encode_ascii (shortuuid_uuid (draws w))).
Qed.

Lemma run_uid_Null (w : World) : run Null._uid w = run Base._uid w.
Proof. reflexivity. Qed.

End Running.

(** ** The uid generator *)

Section UidGenerator.
Context `{Ext : Externals}.

(** C6. Every uid that [_uid] produces is the first ten characters of the
    hexadecimal MD5 digest of the token's ASCII bytes (one byte per
    character of the token, with the character's code), followed by the
    token: 32 characters matching [[0-9a-f]{10}[A-Za-z0-9]{22}]. It holds
    for a token as shortuuid makes them (22 characters of its alphabet)
    and a digest as hashlib prints it (32 hexadecimal characters). *)
Theorem uid_format (w : World) :
  let suuid := shortuuid_uuid (draws w) in
  let b := list_byte_of_string suuid in
  let uid := (substring 0 10 (md5_hexdigest b) ++ suuid)%string in
  base57_token suuid = true ->
  hexdigest_ok (md5_hexdigest b) = true ->
  map Byte.to_N b = map N_of_ascii (list_ascii_of_string suuid)
  /\ encode_ascii suuid = inr b
  /\ run Base._uid w = Returned uid (drawn w)
  /\ run Null._uid w = Returned uid (drawn w)
  /\ String.length uid = 32%nat
  /\ matches_uid_format uid = true.
Proof.
  intros suuid b uid Htok Hmd5.
  destruct (base57_token_chars _ Htok) as (Hlen & Halnum & Hascii).
  pose proof (encode_ascii_bytes _ Hascii) as Hb. fold b in Hb.
  unfold hexdigest_ok in Hmd5.
  apply andb_prop in Hmd5 as [Hhlen Hhex]. apply Nat.eqb_eq in Hhlen.
  set (h := list_ascii_of_string (md5_hexdigest b)) in *.
  assert (Hl : list_ascii_of_string uid
               = firstn 10 h ++ list_ascii_of_string suuid)
    by (unfold uid; by rewrite list_ascii_of_string_app, list_ascii_of_string_prefix).
  assert (H10 : length (firstn 10 h) = 10%nat)
    by (rewrite length_firstn; lia).
  split; [apply list_byte_of_string_codes |]. split; [done |].
  assert (Hrun : run Base._uid w = Returned uid (drawn w)).
  { rewrite run_uid_Base. unfold uid_of_token. fold suuid. by rewrite Hb. }
  split; [done |]. split; [by rewrite run_uid_Null |].
  split.
  - rewrite string_length_list, Hl, length_app, H10, Hlen. done.
  - unfold matches_uid_format. rewrite Hl.
    rewrite length_app, H10, Hlen. simpl (_ =? _)%nat.
    rewrite (take_app_length' _ _ 10), (drop_app_length' _ _ 10) by done.
    rewrite Halnum, andb_true_r. simpl.
    apply forallb_forall. intros c Hc%list_elem_of_In.
    apply (subseteq_take 10 h) in Hc.
    rewrite forallb_forall in Hhex. by apply Hhex, list_elem_of_In.
Qed.

End UidGenerator.

(** ** [save] *)

Section Save.
Context `{Ext : Externals}.

Lemma Base_save_latched (w : World) data _sync cb e :
  last_exception (attrs w) = Assigned (Some e) ->
  run (Base.save data _sync cb) w = Raised e w.
Proof. intros H. unfold Base.save. simpl. by rewrite H. Qed.

Lemma awaits_join {R : Type} (q : qname) (r : R) :
  awaits (call (Join q) ;; Ret r)
    (fun w => q_joinable (getq q w)) (fun w => Returned r w).
Proof. intros w. simpl. by destruct (q_joinable (getq q w)). Qed.

Lemma awaits_put {R : Type} (q : qname) (x : elem q) (k : Prog R) :
  awaits (call (Put q x) ;; k)
    (fun w => negb (full (getq q w))) (fun w => run k (enqueued q x w)).
Proof.
  intros w. simpl. unfold q_put, enqueued.
  by destruct (full (getq q w)).
Qed.

Lemma run_put (q : qname) (x : elem q) (w : World) :
  run (call (Put q x)) w =
  if full (getq q w) then Blocked (call (Put q x)) w
  else Returned tt (enqueued q x w).
Proof. simpl. unfold q_put, enqueued. by destruct (full (getq q w)). Qed.

Lemma Base_save_clear (w : World) data _sync cb uid :
  last_exception (attrs w) = Assigned None ->
  uid_of_token (shortuuid_uuid (draws w)) = inr uid ->
  run (Base.save data _sync cb) w =
  run (call (Put WriteQ (Some (Entry3 uid data cb))) ;;
       (if _sync then call (Join WriteQ) else Ret tt) ;; Ret uid) (drawn w).
Proof.
  intros Hl Hu. unfold Base.save, Base._uid. simpl. rewrite Hl. simpl.
  unfold uid_of_token in Hu.
  destruct (encode_ascii (shortuuid_uuid (draws w))); [done |].
  by injection Hu as <-.
Qed.

Lemma Null_save_run (w : World) data _sync :
  run (Null.save data _sync) w =
  match fatal_error (attrs w) with
  | Some e => Raised e w
  | None =>
      match uid_of_token (shortuuid_uuid (draws w)) with
      | inr uid => Returned uid (drawn w)
      | inl e => Raised e (drawn w)
      end
  end.
Proof.
  unfold Null.save, Null._uid, uid_of_token. simpl.
  destruct (fatal_error (attrs w)); [done |]. simpl.
  by destruct (encode_ascii (shortuuid_uuid (draws w))).
Qed.

(** C1, as amended. The base class's [save]: with the latch set it raises
    the latched exception at once and leaves the world as it is; with the
    latch clear it draws a uid, waits until the write queue has room,
    enqueues the job [(uid, data, callback)], with [_sync] waits until the
    queue's unfinished tasks are down to zero, and returns the uid. The
    null backend's [save]: with [fatal_error] set it raises it at once;
    otherwise it draws a uid and returns it, and enqueues nothing,
    whatever [_sync] is. *)
Theorem save_spec (w : World) (data : bytes) (_sync : bool)
    (cb : option callback) :
  (forall e, last_exception (attrs w) = Assigned (Some e) ->
     run (Base.save data _sync cb) w = Raised e w)
  /\ (forall uid,
        last_exception (attrs w) = Assigned None ->
        uid_of_token (shortuuid_uuid (draws w)) = inr uid ->
        exists p_put p_join : Prog string,
          run (Base.save data _sync cb) w = run p_put (drawn w)
          /\ awaits p_put (fun w1 => negb (full (_write_queue w1)))
               (fun w1 =>
                  let w2 := enqueued WriteQ (Some (Entry3 uid data cb)) w1 in
                  if _sync then run p_join w2 else Returned uid w2)
          /\ awaits p_join (fun w2 => q_joinable (_write_queue w2))
               (fun w2 => Returned uid w2))
  /\ (forall e, fatal_error (attrs w) = Some e ->
        run (Null.save data _sync) w = Raised e w)
  /\ (forall uid,
        fatal_error (attrs w) = None ->
        uid_of_token (shortuuid_uuid (draws w)) = inr uid ->
        run (Null.save data _sync) w = Returned uid (drawn w)
        /\ _write_queue (drawn w) = _write_queue w).
Proof.
  split; [intros e; apply Base_save_latched |].
  split.
  - intros uid Hl Hu.
    exists (call (Put WriteQ (Some (Entry3 uid data cb))) ;;
            (if _sync then call (Join WriteQ) else Ret tt) ;; Ret uid),
           (call (Join WriteQ) ;; Ret uid).
    split; [by apply Base_save_clear |].
    split; [| apply (awaits_join WriteQ)].
    intros w1.
    rewrite (awaits_put WriteQ (Some (Entry3 uid data cb))).
    cbn [getq elem].
    destruct (full (_write_queue w1)); simpl negb; cbv iota;
      [reflexivity | by destruct _sync].
  - split.
    + intros e He. by rewrite Null_save_run, He.
    + intros uid He Hu. by rewrite Null_save_run, He, Hu.
Qed.

End Save.

(** ** [read_get] and [read] *)

Section Read.
Context `{Ext : Externals}.

Lemma exec_get_empty (q : qname) (t : option Z) (w : World) :
  negative t = false ->
  queue (getq q w) = [] -> exec (Get q t) w = Wait.
Proof. intros Ht H. simpl. unfold q_get. by rewrite Ht, H. Qed.

Lemma exec_get_head (q : qname) (t : option Z) (w : World) x rest :
  negative t = false ->
  queue (getq q w) = x :: rest -> exec (Get q t) w = Ok x (dequeued q w).
Proof. intros Ht H. simpl. unfold q_get, dequeued. by rewrite Ht, H. Qed.

Lemma exec_task_done (q : qname) (w : World) :
  0 < unfinished_tasks (getq q w) ->
  exec (TaskDone q) w = Ok tt (marked_done q w).
Proof.
  intros H. simpl. unfold q_task_done, marked_done.
  destruct (Z.ltb_spec (unfinished_tasks (getq q w) - 1) 0); [lia | done].
Qed.

Lemma getq_dequeued (q : qname) (w : World) :
  getq q (dequeued q w)
  = mkQueue (tail (queue (getq q w))) (maxsize (getq q w))
      (unfinished_tasks (getq q w)).
Proof. by destruct q. Qed.

Lemma getq_enqueued (q : qname) (x : elem q) (w : World) :
  getq q (enqueued q x w)
  = mkQueue (queue (getq q w) ++ [x]) (maxsize (getq q w))
      (unfinished_tasks (getq q w) + 1).
Proof. by destruct q. Qed.

Lemma getq_enqueued_ne (q q' : qname) (x : elem q) (w : World) :
  q <> q' -> getq q' (enqueued q x w) = getq q' w.
Proof. by destruct q, q'. Qed.

Lemma from_get_negative (t : option Z) (w : World) :
  negative t = true ->
  run (from_get t) w
  = Raised (ValueError "'timeout' must be a non-negative number") w.
Proof. intros Ht. unfold from_get. simpl. by rewrite Ht. Qed.

Lemma from_get_empty (t : option Z) (w : World) :
  negative t = false ->
  queue (_read_data_queue w) = [] ->
  run (from_get t) w = Blocked (from_get t) w.
Proof. intros Ht H. unfold from_get. simpl. unfold q_get. by rewrite Ht, H. Qed.

Lemma from_get_data (t : option Z) (w : World) block d rest :
  negative t = false ->
  queue (_read_data_queue w) = (block, Some d) :: rest ->
  0 < unfinished_tasks (_read_data_queue w) ->
  run (from_get t) w
  = Returned (block, 0, len d, Some d)
      (marked_done ReadDataQ (dequeued ReadDataQ w)).
Proof.
  intros Ht H Hu. unfold from_get, call. cbn [bind].
  rewrite run_Do, (exec_get_head ReadDataQ _ w _ _ Ht H). cbn [bind].
  rewrite run_Do, exec_task_done; [done |].
  by rewrite getq_dequeued.
Qed.

Lemma from_get_absent (t : option Z) (w : World) block rest :
  negative t = false ->
  queue (_read_data_queue w) = (block, None) :: rest ->
  run (from_get t) w = Raised no_len (dequeued ReadDataQ w).
Proof.
  intros Ht H. unfold from_get. simpl. unfold q_get, dequeued. simpl.
  by rewrite Ht, H.
Qed.

Lemma not_negative (timeout : Z) : 0 <= timeout -> negative (Some timeout) = false.
Proof. intros H. simpl. by destruct (Z.ltb_spec timeout 0); [lia |]. Qed.

Lemma Base_read_get_clear (timeout : Z) (w : World) :
  last_exception (attrs w) = Assigned None ->
  run (Base.read_get timeout) w = run (from_get (Some timeout)) w.
Proof. intros H. unfold Base.read_get. simpl. by rewrite H. Qed.

Lemma Base_read_get_latched (timeout : Z) (w : World) e :
  last_exception (attrs w) = Assigned (Some e) ->
  run (Base.read_get timeout) w = Raised e w.
Proof. intros H. unfold Base.read_get. simpl. by rewrite H. Qed.

Lemma Null_read_get_from_get : Null.read_get = from_get None.
Proof. reflexivity. Qed.

End Read.

Section ReadSpec.
Context `{Ext : Externals}.

(** C4, as amended. The base class's [read_get(timeout)]: with the latch
    set it raises the latched exception at once; with the latch clear and
    a non-negative [timeout] it waits for the oldest completed result with
    a time budget of [timeout] seconds, at the end of which it raises
    [queue.Empty] (which is not [FileNotFoundError]); for a result
    [(block, data)] with data it marks the result done and returns
    [(block, 0, len(data), data)], the later results staying queued. (A
    negative [timeout] makes [get] raise [ValueError].) The null backend's
    [read_get()] has no time budget: it waits without bound and returns
    the same tuple. *)
Theorem read_get_spec (w : World) (timeout : Z) :
  (forall e, last_exception (attrs w) = Assigned (Some e) ->
     run (Base.read_get timeout) w = Raised e w)
  /\ (last_exception (attrs w) = Assigned None -> 0 <= timeout ->
      exists p : Prog (Block.t * Z * nat * option bytes),
        run (Base.read_get timeout) w = run p w
        /\ budget p = Some timeout
        /\ timed_out p = Some (Raise queue_Empty)
        /\ (forall w1, queue (_read_data_queue w1) = [] ->
              run p w1 = Blocked p w1)
        /\ (forall w1 block d rest,
              queue (_read_data_queue w1) = (block, Some d) :: rest ->
              0 < unfinished_tasks (_read_data_queue w1) ->
              let w2 := marked_done ReadDataQ (dequeued ReadDataQ w1) in
              run p w1 = Returned (block, 0, len d, Some d) w2
              /\ queue (_read_data_queue w2) = rest))
  /\ (last_exception (attrs w) = Assigned None -> timeout < 0 ->
      run (Base.read_get timeout) w
      = Raised (ValueError "'timeout' must be a non-negative number") w)
  /\ (forall msg, queue_Empty <> FileNotFoundError msg)
  /\ budget Null.read_get = None
  /\ timed_out Null.read_get = None
  /\ (queue (_read_data_queue w) = [] ->
      run Null.read_get w = Blocked Null.read_get w)
  /\ (forall block d rest,
        queue (_read_data_queue w) = (block, Some d) :: rest ->
        0 < unfinished_tasks (_read_data_queue w) ->
        let w2 := marked_done ReadDataQ (dequeued ReadDataQ w) in
        run Null.read_get w = Returned (block, 0, len d, Some d) w2
        /\ queue (_read_data_queue w2) = rest).
Proof.
  split; [intros e; apply Base_read_get_latched |].
  split.
  { intros Hl Ht%not_negative. exists (from_get (Some timeout)).
    split; [by apply Base_read_get_clear |].
    split; [done |]. split; [done |].
    split; [intros w1; by apply from_get_empty |].
    intros w1 block d rest Hq Hu. split.
    - by eapply from_get_data.
    - simpl. by rewrite Hq. }
  split.
  { intros Hl Ht. rewrite Base_read_get_clear by done.
    apply from_get_negative. simpl. by destruct (Z.ltb_spec timeout 0); [| lia]. }
  split; [done |]. split; [done |]. split; [done |].
  split; [by apply (from_get_empty None) |].
  intros block d rest Hq Hu. split.
  - by eapply from_get_data.
  - simpl. by rewrite Hq.
Qed.

(** C5, on the code. A completed result whose data is absent does not get
    through the base class's [read_get]: [len(data)] raises [TypeError]
    once the result has been taken from the queue, and a synchronous
    [read] ends with that [TypeError], before its own check for absent
    data. *)
Theorem read_get_absent_data (w : World) (timeout : Z)
    (block : Block.t) (rest : list (Block.t * option bytes)) :
  last_exception (attrs w) = Assigned None ->
  0 <= timeout ->
  queue (_read_data_queue w) = (block, None) :: rest ->
  run (Base.read_get timeout) w = Raised no_len (dequeued ReadDataQ w)
  /\ (full (_read_queue w) = false ->
      run (Base.read (self_read_get BaseDataBackend) block true) w
      = Raised no_len (dequeued ReadDataQ (enqueued ReadQ (Some block) w))).
Proof.
  intros Hl Ht%not_negative Hq. split.
  - rewrite Base_read_get_clear by done. by eapply from_get_absent.
  - intros Hfull. unfold Base.read, self_read_get. rewrite run_bind.
    rewrite run_put. cbn [getq elem]. rewrite Hfull.
    rewrite run_bind, Base_read_get_clear by done.
    by rewrite (from_get_absent _ _ block rest).
Qed.

(** What the base class's synchronous [read] does with a completed
    result that has data. *)
Lemma Base_read_sync (w : World) (block rblock : Block.t) (d : bytes)
    (rest : list (Block.t * option bytes)) :
  last_exception (attrs w) = Assigned None ->
  full (_read_queue w) = false ->
  queue (_read_data_queue w) = (rblock, Some d) :: rest ->
  0 < unfinished_tasks (_read_data_queue w) ->
  let w' := marked_done ReadDataQ
              (dequeued ReadDataQ (enqueued ReadQ (Some block) w)) in
  run (Base.read (self_read_get BaseDataBackend) block true) w =
  if (Block.id rblock =? Block.id block)%Z then Returned (PyBytes d) w'
  else Raised (RuntimeError "Do not mix threaded reading with sync reading!") w'.
Proof.
  intros Hl Hfull Hq Hu. unfold Base.read, self_read_get. rewrite run_bind.
  rewrite run_put. cbn [getq elem]. rewrite Hfull.
  rewrite run_bind, Base_read_get_clear by done.
  rewrite (from_get_data _ _ rblock d rest) by done.
  by destruct (Block.id rblock =? Block.id block)%Z.
Qed.

Lemma Null_read_sync_run (w : World) (block : Block.t) :
  run (Null.read block true) w =
  if full (_read_queue w) then Blocked (Null.read block true) w
  else Raised (UnboundLocalError "rblock") (enqueued ReadQ (Some block) w).
Proof.
  unfold Null.read. simpl. unfold q_put.
  by destruct (full (_read_queue w)).
Qed.

(** C2, on the code. The null backend's synchronous [read] enqueues the
    block and then reads its local variable [rblock] before anything has
    been assigned to it: it raises [UnboundLocalError], and never gets
    to [read_get], whose queue it leaves as it was; it never returns. *)
Theorem Null_read_sync_unbound (w : World) (block : Block.t) :
  (forall r w', run (Null.read block true) w <> Returned r w')
  /\ (full (_read_queue w) = false ->
      run (Null.read block true) w
      = Raised (UnboundLocalError "rblock") (enqueued ReadQ (Some block) w)
      /\ _read_data_queue (enqueued ReadQ (Some block) w) = _read_data_queue w).
Proof.
  split.
  - intros r w'. rewrite Null_read_sync_run. by destruct (full (_read_queue w)).
  - intros Hfull. by rewrite Null_read_sync_run, Hfull.
Qed.

End ReadSpec.

(** ** The null backend stores nothing *)

Section NullSink.
Context `{Ext : Externals}.

Lemma Null_save_data_independent {R : Type} (w : World)
    (d1 d2 : bytes) (s1 s2 : bool) (k : string -> Prog R) :
  run (uid <- Null.save d1 s1 ;; k uid) w
  = run (uid <- Null.save d2 s2 ;; k uid) w.
Proof. by rewrite !run_bind, !Null_save_run. Qed.

Lemma Null_reader_pass (w : World) (id_ : nat) (block : Block.t)
    (rest : list (option Block.t)) :
  fatal_error (attrs w) = None ->
  queue (_read_queue w) = Some block :: rest ->
  0 < unfinished_tasks (_read_queue w) ->
  full (_read_data_queue w) = false ->
  exists w',
    run (Null._reader id_) w = Returned Continue w'
    /\ _read_data_queue w'
       = mkQueue (queue (_read_data_queue w)
                  ++ [(block, Some (generate_block (Block.id block) (Block.size block)))])
           (maxsize (_read_data_queue w))
           (unfinished_tasks (_read_data_queue w) + 1)
    /\ attrs w' = attrs w.
Proof.
  intros Hf Hq Hu Hfull. unfold Null._reader, call. cbn [bind].
  rewrite run_Do, (exec_get_head ReadQ None w _ _ eq_refl Hq). cbn [bind].
  rewrite run_Do. cbn [exec]. change (attrs (dequeued ReadQ w)) with (attrs w).
  rewrite Hf. cbn [bind].
  rewrite run_Do. cbn [exec bind].
  rewrite run_Do. cbn [exec bind].
  rewrite run_Do. cbn [exec].
  destruct (consume _ _) as [d b]. cbn [bind].
  rewrite run_Do. cbn [exec bind].
  rewrite run_Do. cbn [exec bind].
  rewrite run_Do. cbn [exec getq]. unfold q_put. cbn [_read_data_queue dequeued setq
    set_reader_thread_status set_read_throttling getq elem].
  rewrite Hfull. cbn [bind].
  rewrite run_Do. cbn [exec getq setq _read_queue dequeued
    set_reader_thread_status set_read_throttling elem].
  unfold q_task_done. cbn [unfinished_tasks].
  destruct (Z.ltb_spec (unfinished_tasks (_read_queue w) - 1) 0); [lia |].
  cbn [bind]. rewrite run_Do. cbn [exec bind run].
  eexists. split; [reflexivity |]. by split.
Qed.

Lemma full_empty {A : Type} (q : Queue A) : queue q = [] -> full q = false.
Proof.
  intros H. unfold full, qsize. rewrite H.
  change (Z.of_nat (length [])) with 0.
  destruct (Z.ltb_spec 0 (maxsize q)); [| done].
  destruct (Z.leb_spec (maxsize q) 0); [lia | done].
Qed.

Lemma Null_read_async (w : World) (block : Block.t) :
  run (Null.read block false) w =
  if full (_read_queue w) then Blocked (Null.read block false) w
  else Returned PyNone (enqueued ReadQ (Some block) w).
Proof.
  unfold Null.read. simpl. unfold q_put, enqueued.
  by destruct (full (_read_queue w)).
Qed.

(** C3, as amended. The null backend keeps nothing of what is saved:
    [save(data)] only draws a uid, so that whatever runs afterwards goes
    the same way for any other data; and what an asynchronous [read] of a
    block carrying that uid, a pass of a reader and [read_get] deliver is
    [generate_block(block.id, block.size)], whatever was saved. *)
Theorem Null_save_stores_nothing (w : World) (data : bytes) (_sync : bool) :
  (forall uid w', run (Null.save data _sync) w = Returned uid w' -> w' = drawn w)
  /\ (forall (R : Type) (k : string -> Prog R) (data' : bytes) (_sync' : bool),
        run (uid <- Null.save data _sync ;; k uid) w
        = run (uid <- Null.save data' _sync' ;; k uid) w)
  /\ (forall (uid : string) (block_id block_size : Z) (id_ : nat),
        fatal_error (attrs w) = None ->
        uid_of_token (shortuuid_uuid (draws w)) = inr uid ->
        queue (_read_queue w) = [] ->
        queue (_read_data_queue w) = [] ->
        0 <= unfinished_tasks (_read_queue w) ->
        0 <= unfinished_tasks (_read_data_queue w) ->
        let generated := generate_block block_id block_size in
        exists w',
          run (uid <- Null.save data _sync ;;
               Null.read (Block.mk block_id uid block_size) false ;;
               Null._reader id_ ;;
               Null.read_get) w
          = Returned (Block.mk block_id uid block_size, 0,
                      len generated, Some generated) w').
Proof.
  split.
  { intros uid w'. rewrite Null_save_run.
    destruct (fatal_error (attrs w)); [done |].
    destruct (uid_of_token _); [done |]. by intros [= _ <-]. }
  split; [intros; apply Null_save_data_independent |].
  intros uid block_id block_size id_ Hf Hu Hrq Hdq Hur Hud generated.
  rewrite run_bind, Null_save_run, Hf, Hu.
  rewrite run_bind, Null_read_async.
  rewrite full_empty by done.
  rewrite run_bind.
  set (block := Block.mk block_id uid block_size).
  destruct (Null_reader_pass (enqueued ReadQ (Some block) (drawn w)) id_ block [])
    as (w2 & -> & Hdata & Ha).
  - done.
  - simpl. by rewrite Hrq.
  - simpl. lia.
  - by apply full_empty.
  - change (_read_data_queue (enqueued ReadQ (Some block) (drawn w)))
      with (_read_data_queue w) in Hdata.
    rewrite Hdq in Hdata. simpl in Hdata.
    exists (marked_done ReadDataQ (dequeued ReadDataQ w2)).
    rewrite Null_read_get_from_get.
    apply (from_get_data None w2 block generated []).
    + done.
    + by rewrite Hdata.
    + rewrite Hdata. simpl. lia.
Qed.

End NullSink.

(** ** Runs under interference *)

Section Runs.
Context `{Ext : Externals}.

Lemma runs_inv {R : Type} (rely : World -> World -> Prop)
    (p p' : Prog R) (w w' : World) (tr : list (event * World)) :
  runs rely p w tr p' w' ->
  (p' = p /\ tr = [] /\ rtc rely w w')
  \/ exists w0 ev p1 w1 tr1,
       rtc rely w w0
       /\ head_step p w0 = Advance ev p1 w1
       /\ tr = (ev, w0) :: tr1
       /\ runs rely p1 w1 tr1 p' w'.
Proof.
  induction 1 as [p w | p w w1 tr p' w' Hrely _ IH | p w ev p1 w1 tr p' w' Hs Hr _].
  - by left.
  - destruct IH as [(-> & -> & Hrtc) | (w0 & ev & p1 & w2 & tr1 & Hrtc & IH)].
    + left. repeat split; try done. by eapply rtc_l.
    + right. exists w0, ev, p1, w2, tr1. split; [by eapply rtc_l | done].
  - right. by exists w, ev, p1, w1, tr.
Qed.

Lemma runs_over {R : Type} (rely : World -> World -> Prop)
    (p p' : Prog R) (w w' : World) (tr : list (event * World)) :
  runs rely p w tr p' w' ->
  (forall w0, head_step p w0 = Over) ->
  p' = p /\ tr = [].
Proof.
  intros Hr Hover. apply runs_inv in Hr as [(? & ? & _) | Hr]; [done |].
  destruct Hr as (w0 & ev & p1 & w1 & tr1 & _ & Hs & _). by rewrite Hover in Hs.
Qed.

(** No action touches the attributes, the set of live threads, or the
    capacity of a queue. *)
Lemma exec_frame {X : Type} (a : action X) (w : World) :
  match exec a w with
  | Ok _ w' | Err _ w' =>
      attrs w' = attrs w /\ live w' = live w /\ capacities w' = capacities w
  | Wait => True
  end.
Proof.
  destruct a; simpl; repeat case_match; simplify_eq; try done;
    unfold q_put, q_get, q_task_done in *; repeat case_match; simplify_eq;
    match goal with q : qname |- _ => by destruct q end.
Qed.

Lemma head_step_frame {R : Type} (p p1 : Prog R) (w w1 : World) (ev : event) :
  head_step p w = Advance ev p1 w1 ->
  attrs w1 = attrs w /\ live w1 = live w /\ capacities w1 = capacities w.
Proof.
  destruct p as [r | e | X a k]; simpl; try done.
  pose proof (exec_frame a w) as Hf.
  destruct (exec a w); [| | done]; by intros [= <- <- <-].
Qed.

Lemma others_refl (w : World) : others w w.
Proof. by split. Qed.

Lemma others_trans (w1 w2 w3 : World) :
  others w1 w2 -> others w2 w3 -> others w1 w3.
Proof.
  intros [Ha1 Hl1] [Ha2 Hl2]. split; [congruence | set_solver].
Qed.

Lemma rtc_others (rely : World -> World -> Prop) (w w' : World) :
  (forall w1 w2, rely w1 w2 -> others w1 w2) ->
  rtc rely w w' -> others w w'.
Proof.
  intros Hrely. induction 1 as [| w1 w2 w3 H12 _ IH]; [apply others_refl |].
  eapply others_trans; [by apply Hrely | done].
Qed.

(** Whatever a thread runs, the world it gets to has the attributes it
    started with, and no thread that was not alive then. *)
Lemma runs_others {R : Type} (rely : World -> World -> Prop)
    (p p' : Prog R) (w w' : World) (tr : list (event * World)) :
  (forall w1 w2, rely w1 w2 -> others w1 w2) ->
  runs rely p w tr p' w' ->
  others w w' /\ Forall (fun ew => others w ew.2) tr.
Proof.
  intros Hrely.
  induction 1 as [p w | p w w1 tr p' w' Hr _ IH | p w ev p1 w1 tr p' w' Hs _ IH].
  - split; [apply others_refl | constructor].
  - destruct IH as [IH1 IH2]. apply Hrely in Hr. split.
    + by eapply others_trans.
    + eapply Forall_impl; [exact IH2 |]. intros ew H. by eapply others_trans.
  - destruct IH as [IH1 IH2]. apply head_step_frame in Hs as (Ha & Hl & _).
    assert (Ho : others w w1) by (split; [done | by rewrite Hl]).
    split; [by eapply others_trans |].
    constructor; [apply others_refl |].
    eapply Forall_impl; [exact IH2 |]. intros ew H. by eapply others_trans.
Qed.



End Runs.

(** Takes a run of a program with an action at its head one step on. *)
Ltac runs_next H :=
  let w0 := fresh "w" in
  let ev := fresh "ev" in
  let p1 := fresh "p" in
  let w1 := fresh "w" in
  let tr1 := fresh "tr" in
  let Hs := fresh "Hs" in
  let Htr := fresh "Htr" in
  let Hrtc := fresh "Hrtc" in
  apply runs_inv in H as [(? & ? & ?) | (w0 & ev & p1 & w1 & tr1 & Hrtc & Hs & Htr & H)];
  [try discriminate | cbn [head_step bind call] in Hs].

Ltac runs_end H :=
  apply runs_over in H as [H ->];
  [try discriminate H; try (injection H as ->) | done].

(** ** The writer of the null backend *)

Section Writer.
Context `{Ext : Externals}.

Lemma Null_writer_run (w : World) (id_ : nat) :
  run (Null._writer id_) w =
  match queue (_write_queue w) with
  | [] => Blocked (Null._writer id_) w
  | None :: _ => Returned Break (dequeued WriteQ w)
  | Some entry :: _ =>
      match fatal_error (attrs w) with
      | Some _ => Returned Break (dequeued WriteQ w)
      | None =>
          match entry with
          | Entry3 _ _ _ =>
              Raised (ValueError "too many values to unpack (expected 2)")
                (dequeued WriteQ w)
          | Entry2 uid data =>
              if unfinished_tasks (_write_queue w) - 1 <? 0
              then Raised (ValueError "task_done() called too many times")
                     (set_writer_thread_status
                        (<[id_:=STATUS_NOTHING]>
                           (<[id_:=STATUS_WRITING]>
                              (<[id_:=STATUS_NOTHING]>
                                 (<[id_:=STATUS_THROTTLING]>
                                    (writer_thread_status w)))))
                        (set_write_throttling
                           (snd (consume (len data) (write_throttling w)))
                           (dequeued WriteQ w)))
              else Returned Continue (written id_ (len data) w)
          end
      end
  end.
Proof.
  unfold Null._writer, written, dequeued, marked_done. simpl. unfold q_get.
  destruct (queue (_write_queue w)) as [|[entry|] rest]; simpl; try done.
  destruct (fatal_error (attrs w)); simpl; try done.
  destruct entry as [uid data | uid data cb]; simpl; try done.
  destruct (consume (len data) (write_throttling w)) as [d b]; simpl.
  unfold q_task_done; simpl.
  by destruct (unfinished_tasks (_write_queue w) - 1 <? 0).
Qed.

End Writer.

Section WriterSpec.
Context `{Ext : Externals}.


End WriterSpec.

(** ** Sequencing under interference *)

Section RunsBind.
Context `{Ext : Externals}.

Lemma unfinished_bind {R S : Type} (p : Prog R) (f : R -> Prog S) (s : S) :
  unfinished p -> bind p f <> Ret s.
Proof. by destruct 1. Qed.

Lemma runs_bind_inv {R S : Type} (rely : World -> World -> Prop)
    (f : R -> Prog S) (pb q : Prog S) (w w' : World)
    (tr : list (event * World)) :
  runs rely pb w tr q w' ->
  forall p, pb = bind p f ->
    (exists p', unfinished p' /\ q = bind p' f /\ runs rely p w tr p' w')
    \/ (exists r w1 tr1 tr2,
          tr = tr1 ++ tr2
          /\ runs rely p w tr1 (Ret r) w1
          /\ runs rely (f r) w1 tr2 q w').
Proof.
  induction 1 as [pb w | pb w w1 tr q w' Hrely Hr IH
                 | pb w ev p1 w1 tr q w' Hs Hr IH]; intros p ->.
  - destruct p as [r | e | X a k].
    + right. exists r, w, [], []. repeat split; constructor.
    + left. exists (Raise e). repeat split; constructor.
    + left. exists (Do a k). repeat split; constructor.
  - destruct (IH p eq_refl) as [(p' & Hu & -> & Hp)
                               | (r & w2 & tr1 & tr2 & -> & Hp & Hf)].
    + left. exists p'. repeat split; [done |]. by eapply runs_rely.
    + right. exists r, w2, tr1, tr2. repeat split; [| done]. by eapply runs_rely.
  - destruct p as [r | e | X a k].
    + right. exists r, w, [], ((ev, w) :: tr).
      repeat split; [constructor |]. by eapply runs_step.
    + done.
    + assert (Hp1 : exists p0, p1 = bind p0 f
                               /\ head_step (Do a k) w = Advance ev p0 w1).
      { simpl in Hs |- *. destruct (exec a w) as [x w2 | e w2 |]; [| | done].
        - injection Hs as <- <- <-. by exists (k x).
        - injection Hs as <- <- <-. by exists (Raise e). }
      destruct Hp1 as (p0 & -> & Hs0).
      destruct (IH p0 eq_refl) as [(p' & Hu & -> & Hp)
                                  | (r & w2 & tr1 & tr2 & -> & Hp & Hf)].
      * left. exists p'. repeat split; [done |]. by eapply runs_step.
      * right. exists r, w2, ((ev, w) :: tr1), tr2.
        repeat split; [| done]. by eapply runs_step.
Qed.

(** A program that avoids some actions performs none of them, however
    far it is run. *)
Lemma runs_avoids {R : Type} (rely : World -> World -> Prop)
    (P : event -> Prop) (p p' : Prog R) (w w' : World)
    (tr : list (event * World)) :
  runs rely p w tr p' w' ->
  avoids P p ->
  avoids P p' /\ Forall (fun ew => ~ P ew.1) tr.
Proof.
  induction 1 as [p w | p w w1 tr p' w' _ _ IH | p w ev p1 w1 tr p' w' Hs _ IH];
    intros Hav.
  - by split.
  - by apply IH.
  - destruct Hav as [r | e | X a k Ha Hk]; try done.
    simpl in Hs. destruct (exec a w) as [x w2 | e w2 |]; [| | done];
      injection Hs as <- <- <-.
    + destruct (IH (Hk x)) as [? ?]. split; [done | by constructor].
    + destruct (IH (avoids_Raise P e)) as [? ?]. split; [done | by constructor].
Qed.

Lemma avoids_bind {R S : Type} (P : event -> Prop)
    (p : Prog R) (f : R -> Prog S) :
  avoids P p -> (forall r, avoids P (f r)) -> avoids P (bind p f).
Proof.
  intros Hp Hf. induction Hp as [r | e | X a k Ha _ IH]; simpl.
  - apply Hf.
  - constructor.
  - by constructor.
Qed.

Lemma avoids_call {X : Type} (P : event -> Prop) (a : action X) :
  ~ P (Ev a) -> avoids P (call a).
Proof. intros Ha. constructor; [done | constructor]. Qed.

Lemma avoids_for_each {A : Type} (P : event -> Prop)
    (l : list A) (body : A -> Prog unit) :
  (forall x, avoids P (body x)) -> avoids P (for_each l body).
Proof.
  intros Hb. induction l as [|x l IH]; simpl; [constructor |].
  by apply avoids_bind.
Qed.

End RunsBind.

(** ** [close] *)

Section Close.
Context `{Ext : Externals}.
Variable rely : World -> World -> Prop.
Hypothesis rely_others : forall w1 w2, rely w1 w2 -> others w1 w2.

Lemma runs_puts (q : qname) (x : elem q) (l : list tid)
    (w w' : World) (tr : list (event * World)) :
  runs rely (for_each l (fun _ => call (Put q x))) w tr (Ret tt) w' ->
  map fst tr = map (fun _ => Ev (Put q x)) l.
Proof using Type.
  revert w tr. induction l as [|t l IH]; intros w tr H; simpl in H.
  - by runs_end H.
  - runs_next H. simpl in Hs.
    destruct (q_put x (getq q w0)); [| done].
    injection Hs as <- <- <-. subst tr. simpl. f_equal. by eapply IH.
Qed.

Lemma runs_joins (l : list tid) (w w' : World) (tr : list (event * World)) :
  runs rely (for_each l (fun t => call (ThreadJoin t))) w tr (Ret tt) w' ->
  map fst tr = map (fun t => Ev (ThreadJoin t)) l
  /\ forall t, t ∈ l -> t ∉ live w'.
Proof using rely_others.
  revert w tr. induction l as [|t l IH]; intros w tr H; simpl in H.
  - runs_end H. split; [done |]. intros t Ht. by apply not_elem_of_nil in Ht.
  - runs_next H. simpl in Hs.
    destruct (decide (t ∈ live w0)) as [|Hdead]; [done |].
    injection Hs as <- <- <-. subst tr.
    destruct (runs_others _ _ _ _ _ _ rely_others H) as [[_ Hlive] _].
    destruct (IH _ _ H) as [Htr Hl]. split.
    + simpl. by f_equal.
    + intros t' [-> | Ht']%elem_of_cons; [| by apply Hl].
      intros Hin. by apply Hdead, Hlive.
Qed.

(** One half of [close]: read the list of threads, put a sentinel for
    each, read the list again, join each, and go on with [k]. Either the
    thread is still in that half, or the half is over with every thread
    of the list ended. *)
Lemma runs_phase {R : Type} (G : action (list tid)) (sel : Attrs -> list tid)
    (q : qname) (x : elem q) (k : Prog R) (P : event -> Prop)
    (w w' : World) (tr : list (event * World)) (p' : Prog R) :
  (forall w0, exec G w0 = Ok (sel (attrs w0)) w0) ->
  ~ P (Ev G) -> ~ P (Ev (Put q x)) -> (forall t, ~ P (Ev (ThreadJoin t))) ->
  runs rely
    (ts <- call G ;;
     for_each ts (fun _ => call (Put q x)) ;;
     ts' <- call G ;;
     for_each ts' (fun t => call (ThreadJoin t)) ;;
     k) w tr p' w' ->
  ((forall r, p' <> Ret r) /\ Forall (fun ew => ~ P ew.1) tr)
  \/ (exists trA trB wA,
        tr = trA ++ trB
        /\ map fst trA
           = Ev G :: map (fun _ => Ev (Put q x)) (sel (attrs w))
             ++ Ev G :: map (fun t => Ev (ThreadJoin t)) (sel (attrs w))
        /\ (forall t, t ∈ sel (attrs w) -> t ∉ live wA)
        /\ others w wA
        /\ runs rely k wA trB p' w').
Proof using rely_others.
  intros HG HPG HPput HPjoin H.
  assert (Hputs : forall l : list tid,
             avoids P (for_each l (fun _ => call (Put q x))))
    by (intros l; apply avoids_for_each; intros; by apply avoids_call).
  assert (Hjoins : forall l : list tid,
             avoids P (for_each l (fun t => call (ThreadJoin t))))
    by (intros l; apply avoids_for_each; intros; by apply avoids_call).
  runs_next H; [left; subst; by split |].
  rewrite HG in Hs. injection Hs as <- <- <-. subst tr.
  pose proof (rtc_others _ _ _ rely_others Hrtc) as [Ha0 Hl0].
  rewrite Ha0 in H. set (l := sel (attrs w)) in *.
  destruct (runs_bind_inv rely _ _ _ _ _ _ H _ eq_refl)
    as [(pa & Hu & -> & H1) | ([] & w1 & t1 & t2 & -> & H1 & H2)]; clear H.
  { left. split; [intros r; by apply unfinished_bind |].
    constructor; [done |]. by eapply runs_avoids. }
  rename H2 into H.
  pose proof (runs_puts _ _ _ _ _ _ H1) as Ht1.
  pose proof (proj2 (runs_avoids _ P _ _ _ _ _ H1 (Hputs l))) as HP1.
  pose proof (proj1 (runs_others _ _ _ _ _ _ rely_others H1)) as [Ha1 Hl1].
  runs_next H.
  { left. subst. split; [done |]. rewrite app_nil_r. by constructor. }
  rewrite HG in Hs. injection Hs as <- <- <-. subst t2.
  pose proof (rtc_others _ _ _ rely_others Hrtc0) as [Ha2 Hl2].
  assert (Hsel : sel (attrs w2) = l) by (unfold l; congruence).
  rewrite Hsel in H.
  destruct (runs_bind_inv rely _ _ _ _ _ _ H _ eq_refl)
    as [(pa & Hu & -> & H3) | ([] & wA & t3 & t4 & -> & H3 & H4)]; clear H.
  { left. split; [intros r; by apply unfinished_bind |].
    constructor; [done |]. apply Forall_app. split; [done |].
    constructor; [done |]. by eapply runs_avoids. }
  rename H4 into H.
  destruct (runs_joins _ _ _ _ H3) as [Ht3 Hdead].
  pose proof (proj1 (runs_others _ _ _ _ _ _ rely_others H3)) as [Ha3 Hl3].
  right. exists ((Ev G, w0) :: t1 ++ (Ev G, w2) :: t3), t4, wA.
  split; [by rewrite <- !app_comm_cons, <- app_assoc |].
  split; [simpl; by rewrite map_app, Ht1, <- Ht3 |].
  split; [done |]. split; [| done].
  split; [congruence | set_solver].
Qed.

End Close.

Section CloseAgain.
Context `{Ext : Externals}.

Lemma room_not_full {A : Type} (n : nat) (q : Queue A) :
  room (S n) q -> full q = false.
Proof.
  unfold room, full. intros H.
  destruct (Z.ltb_spec 0 (maxsize q)); [| done].
  destruct (Z.leb_spec (maxsize q) (qsize q)); [lia | done].
Qed.

Lemma run_puts (q : qname) (x : elem q) (l : list tid) (w : World) :
  room (length l) (getq q w) ->
  exists w',
    run (for_each l (fun _ => call (Put q x))) w = Returned tt w'
    /\ queue (getq q w') = queue (getq q w) ++ replicate (length l) x
    /\ maxsize (getq q w') = maxsize (getq q w)
    /\ (forall q', q' <> q -> getq q' w' = getq q' w)
    /\ attrs w' = attrs w /\ live w' = live w.
Proof.
  revert w. induction l as [|t l IH]; intros w Hroom.
  - exists w. simpl. by rewrite app_nil_r.
  - cbn [for_each]. rewrite run_bind, run_put, (room_not_full (length l)) by done.
    destruct (IH (enqueued q x w)) as (w' & -> & Hq & Hm & Hne & Ha & Hl).
    { rewrite getq_enqueued. unfold room, qsize in *. simpl in *.
      rewrite length_app. simpl. lia. }
    exists w'. split; [done |].
    rewrite Hq, Hm, Ha, Hl, getq_enqueued. simpl.
    split; [by rewrite <- app_assoc |]. split; [done |].
    split; [| by destruct q].
    intros q' Hq'. rewrite Hne by done. by apply getq_enqueued_ne.
Qed.

Lemma run_joins (l : list tid) (w : World) :
  (forall t, t ∈ l -> t ∉ live w) ->
  run (for_each l (fun t => call (ThreadJoin t))) w = Returned tt w.
Proof.
  induction l as [|t l IH]; intros Hdead; [done |].
  cbn [for_each]. rewrite run_bind. simpl.
  destruct (decide (t ∈ live w)) as [Hin |].
  - exfalso. by apply (Hdead t); [left |].
  - apply IH. intros t' Ht'. apply Hdead. by right.
Qed.

(** A call of [close] when every worker has ended, as after an earlier
    call: the sentinels are enqueued once more, and stay. *)
Lemma run_close_again (w : World) :
  let ws := _writer_threads (attrs w) in
  let rs := _reader_threads (attrs w) in
  (forall t, t ∈ ws ++ rs -> t ∉ live w) ->
  room (length ws) (_write_queue w) ->
  room (length rs) (_read_queue w) ->
  exists w',
    run Base.close w = Returned tt w'
    /\ queue (_write_queue w') = queue (_write_queue w) ++ replicate (length ws) None
    /\ queue (_read_queue w') = queue (_read_queue w) ++ replicate (length rs) None
    /\ attrs w' = attrs w /\ live w' = live w.
Proof.
  intros ws rs Hdead Hw Hr. unfold Base.close.
  rewrite run_bind. cbn [call run exec].
  destruct (run_puts WriteQ None ws w Hw) as (w1 & Hrun1 & Hq1 & _ & Hne1 & Ha1 & Hl1).
  fold ws. rewrite run_bind, Hrun1.
  rewrite run_bind. cbn [call run exec]. rewrite Ha1. fold ws.
  rewrite run_bind, run_joins.
  2:{ intros t Ht. rewrite Hl1. apply Hdead, elem_of_app. by left. }
  rewrite run_bind. cbn [call run exec]. rewrite Ha1. fold rs.
  destruct (run_puts ReadQ None rs w1) as (w2 & Hrun2 & Hq2 & _ & Hne2 & Ha2 & Hl2).
  { by rewrite (Hne1 ReadQ). }
  rewrite run_bind, Hrun2.
  rewrite run_bind. cbn [call run exec]. rewrite Ha2, Ha1. fold rs.
  rewrite run_joins.
  2:{ intros t Ht. rewrite Hl2, Hl1. apply Hdead, elem_of_app. by right. }
  exists w2. split; [done |].
  pose proof (Hne2 WriteQ ltac:(done)) as HW.
  pose proof (Hne1 ReadQ ltac:(done)) as HR.
  cbn [getq elem] in Hq1, Hq2, HW, HR.
  split; [by rewrite HW |].
  split; [by rewrite Hq2, HR |].
  split; congruence.
Qed.

End CloseAgain.

Section CloseSpec.
Context `{Ext : Externals}.
Variable rely : World -> World -> Prop.
Hypothesis rely_others : forall w1 w2, rely w1 w2 -> others w1 w2.

Lemma runs_last_phase (G : action (list tid)) (sel : Attrs -> list tid)
    (q : qname) (x : elem q) (w w' : World) (tr : list (event * World)) :
  (forall w0, exec G w0 = Ok (sel (attrs w0)) w0) ->
  runs rely
    (ts <- call G ;;
     for_each ts (fun _ => call (Put q x)) ;;
     ts' <- call G ;;
     for_each ts' (fun t => call (ThreadJoin t))) w tr (Ret tt) w' ->
  map fst tr
  = Ev G :: map (fun _ => Ev (Put q x)) (sel (attrs w))
    ++ Ev G :: map (fun t => Ev (ThreadJoin t)) (sel (attrs w))
  /\ forall t, t ∈ sel (attrs w) -> t ∉ live w'.
Proof using rely_others.
  intros HG H.
  runs_next H. rewrite HG in Hs. injection Hs as <- <- <-. subst tr.
  pose proof (rtc_others _ _ _ rely_others Hrtc) as [Ha0 _].
  rewrite Ha0 in H.
  destruct (runs_bind_inv rely _ _ _ _ _ _ H _ eq_refl)
    as [(pa & Hu & Heq & _) | ([] & w1 & t1 & t2 & -> & H1 & H2)]; clear H.
  { symmetry in Heq. by apply unfinished_bind in Heq. }
  pose proof (runs_puts _ _ _ _ _ _ _ H1) as Ht1.
  pose proof (proj1 (runs_others _ _ _ _ _ _ rely_others H1)) as [Ha1 _].
  runs_next H2. rewrite HG in Hs. injection Hs as <- <- <-. subst t2.
  pose proof (rtc_others _ _ _ rely_others Hrtc0) as [Ha2 _].
  assert (Hsel : sel (attrs w2) = sel (attrs w)) by congruence.
  rewrite Hsel in H2.
  destruct (runs_joins _ rely_others _ _ _ _ H2) as [Ht2 Hdead].
  split; [| done].
  simpl. by rewrite map_app, Ht1, <- Ht2.
Qed.

Lemma init_threads (config : Config) (w : World) :
  Null.__init__ config = inr w ->
  _writer_threads (attrs w)
  = map WriterThread (range (getint config "simultaneous_writes" 1))
  /\ _reader_threads (attrs w)
     = map ReaderThread (range (getint config "simultaneous_reads" 1))
  /\ live w = _writer_threads (attrs w) ++ _reader_threads (attrs w).
Proof using Type.
  unfold Null.__init__. destruct (filter _ _) as [|[key value] rest]; [done |].
  destruct (int value) as [e | size]; [done |].
  by intros [= <-].
Qed.

(** C8. A backend has as many writer threads as [simultaneous_writes]
    and as many reader threads as [simultaneous_reads], and [close] is the
    same program in both classes. However the other threads go on (none of
    them starts a thread or assigns an attribute), at any point of a call
    of [close] either no stop sentinel has been put on the read-request
    queue yet, or the call has first put exactly one stop sentinel per
    writer thread on the write queue and joined every writer thread, and
    whatever it did afterwards it did with every writer thread ended. A
    call that returns has performed exactly the actions of [close_events],
    and every worker has ended. A further call, made then, enqueues the
    sentinels again: the queues end up with one more stop sentinel per
    worker. *)
Theorem close_spec (w : World) :
  let ws := _writer_threads (attrs w) in
  let rs := _reader_threads (attrs w) in
  Null.close = Base.close
  /\ (forall config, Null.__init__ config = inr w ->
        length ws = Z.to_nat (getint config "simultaneous_writes" 1)
        /\ length rs = Z.to_nat (getint config "simultaneous_reads" 1))
  /\ (forall tr p' w',
        runs rely Base.close w tr p' w' ->
        Forall (fun ew => puts_read_sentinel ew.1 = false) tr
        \/ exists trA trB wA,
             tr = trA ++ trB
             /\ map fst trA
                = Ev GetWriterThreads :: map (fun _ => Ev (Put WriteQ None)) ws
                  ++ Ev GetWriterThreads :: map (fun t => Ev (ThreadJoin t)) ws
             /\ (forall t, t ∈ ws -> t ∉ live wA)
             /\ Forall (fun ew => forall t, t ∈ ws -> t ∉ live ew.2) trB)
  /\ (forall tr w',
        runs rely Base.close w tr (Ret tt) w' ->
        map fst tr = close_events ws rs
        /\ forall t, t ∈ ws ++ rs -> t ∉ live w')
  /\ ((forall t, t ∈ ws ++ rs -> t ∉ live w) ->
      room (length ws) (_write_queue w) ->
      room (length rs) (_read_queue w) ->
      exists w',
        run Base.close w = Returned tt w'
        /\ queue (_write_queue w')
           = queue (_write_queue w) ++ replicate (length ws) None
        /\ queue (_read_queue w')
           = queue (_read_queue w) ++ replicate (length rs) None).
Proof using rely_others.
  intros ws rs. split; [done |]. split.
  { intros config Hinit. destruct (init_threads _ _ Hinit) as (Hw & Hr & _).
    unfold ws, rs. rewrite Hw, Hr, !length_map. unfold range.
    by rewrite !length_seq. }
  assert (Hphase : forall tr p' w',
             runs rely Base.close w tr p' w' ->
             ((forall r, p' <> Ret r)
              /\ Forall (fun ew => ~ puts_read_sentinel ew.1 = true) tr)
             \/ exists trA trB wA,
                  tr = trA ++ trB
                  /\ map fst trA
                     = Ev GetWriterThreads
                       :: map (fun _ => Ev (Put WriteQ None)) ws
                       ++ Ev GetWriterThreads
                       :: map (fun t => Ev (ThreadJoin t)) ws
                  /\ (forall t, t ∈ ws -> t ∉ live wA)
                  /\ others w wA
                  /\ runs rely
                       (ts <- call GetReaderThreads ;;
                        for_each ts (fun _ => call (Put ReadQ None)) ;;
                        ts' <- call GetReaderThreads ;;
                        for_each ts' (fun t => call (ThreadJoin t)))
                       wA trB p' w').
  { intros tr p' w' H.
    by apply (runs_phase rely rely_others GetWriterThreads _writer_threads
                WriteQ None _ (fun e => puts_read_sentinel e = true)) in H. }
  split.
  { intros tr p' w' H.
    destruct (Hphase _ _ _ H) as [[_ Hno] | (trA & trB & wA & -> & HA & Hdead & _ & HB)].
    - left. eapply Forall_impl; [exact Hno |]. intros ew Hew. simpl in Hew.
      by destruct (puts_read_sentinel ew.1).
    - right. exists trA, trB, wA. repeat split; try done.
      destruct (runs_others _ _ _ _ _ _ rely_others HB) as [_ Hall].
      eapply Forall_impl; [exact Hall |]. intros ew [_ Hlive] t Ht Hin.
      by apply (Hdead t Ht), Hlive. }
  split.
  { intros tr w' H.
    destruct (Hphase _ _ _ H) as [[Hne _] | (trA & trB & wA & -> & HA & Hdead & [Ha _] & HB)].
    { by destruct (Hne tt). }
    destruct (runs_others _ _ _ _ _ _ rely_others HB) as [[_ Hlive] _].
    apply (runs_last_phase GetReaderThreads _reader_threads ReadQ None) in HB as [HB HdeadB];
      [| done].
    rewrite Ha in HB, HdeadB.
    split.
    - rewrite map_app, HA, HB. unfold close_events, ws, rs. simpl.
      by rewrite <- !app_assoc.
    - intros t [Ht | Ht]%elem_of_app; [| by apply HdeadB].
      intros Hin. by apply (Hdead t Ht), Hlive. }
  intros Hdead Hw Hr.
  destruct (run_close_again w Hdead Hw Hr) as (w' & Hrun & Hq1 & Hq2 & _).
  by exists w'.
Qed.

End CloseSpec.

(** ** What holds of every step of the system *)

(** Shows that a given program never performs the actions in question. *)
Ltac solve_avoids :=
  repeat first
    [ apply avoids_Ret
    | apply avoids_Raise
    | apply avoids_for_each; intros
    | apply avoids_Do; [simpl; tauto | intros]
    | progress cbn [bind call local]
    | match goal with
      | |- avoids _ (match ?x with _ => _ end) => destruct x
      | |- avoids _ (bind (match ?x with _ => _ end) _) => destruct x
      end
    | apply avoids_bind; [| intros] ].

Section Steps.
Context `{Ext : Externals}.

Lemma api_avoids {R : Type} (p : Prog R) :
  api p -> avoids takes_from_read_queue p.
Proof.
  destruct 1;
    unfold Base.save, Base.update, Base.read, Base.read_get, Base.read_raw,
      Base.rm, Base.rm_many, Base.get_all_blob_uids, Base.close, Base._uid,
      Null.save, Null.rm, Null.rm_many, Null.read_get, Null.read,
      Null.read_queue_size, Null.get_all_blob_uids, Null.close, Null._uid,
      self_read_get;
    solve_avoids.
Qed.

Lemma writer_avoids (id_ : nat) :
  avoids takes_from_read_queue (Null._writer id_).
Proof. unfold Null._writer. solve_avoids. Qed.

Lemma head_step_avoids {R : Type} (P : event -> Prop)
    (p p1 : Prog R) (w w1 : World) (ev : event) :
  avoids P p -> head_step p w = Advance ev p1 w1 ->
  ~ P ev /\ avoids P p1.
Proof.
  destruct 1 as [r | e | X a k Ha Hk]; simpl; try done.
  destruct (exec a w); [| | done]; intros [= <- <- <-]; split;
    try done; constructor.
Qed.

(** An action other than a [get] on the read-request queue leaves what
    is queued there in place. *)
Lemma head_step_read_queue {R : Type} (p p1 : Prog R) (w w1 : World) (ev : event) :
  head_step p w = Advance ev p1 w1 ->
  ~ takes_from_read_queue ev ->
  queue (_read_queue w) `prefix_of` queue (_read_queue w1).
Proof.
  destruct p as [r | e | X a k]; simpl; try done.
  destruct a; simpl; repeat case_match; simplify_eq; intros; simplify_eq;
    try done;
    unfold q_put, q_get, q_task_done in *; repeat case_match; simplify_eq;
    try match goal with q : qname |- _ => destruct q end; simpl in *;
    try done; try tauto;
    by apply prefix_app_r.
Qed.

Lemma thread_step_frame (w w' : World) (th : thread) (th' : option thread) :
  thread_step w th w' th' ->
  capacities w' = capacities w /\ others w w'.
Proof.
  destruct 1 as [t pc ev pc' w' Hs | | | | | R pc ev pc' w' Hs | |];
    try (split; [done | apply others_refl]).
  - apply head_step_frame in Hs as (Ha & Hl & Hc).
    split; [done |]. split; [done | by rewrite Hl].
  - split; [done |]. split; [done |]. simpl.
    intros t' Ht'%list_elem_of_filter. by destruct Ht'.
  - split; [done |]. split; [done |]. simpl.
    intros t' Ht'%list_elem_of_filter. by destruct Ht'.
  - apply head_step_frame in Hs as (Ha & Hl & Hc).
    split; [done |]. split; [done | by rewrite Hl].
Qed.

Lemma sys_step_capacities (s s' : System) :
  sys_step s s' -> capacities (world s') = capacities (world s).
Proof.
  destruct 1 as [s i th w' th' _ Hs].
  apply thread_step_frame in Hs as [Hc _]. exact Hc.
Qed.

Lemma rtc_sys_step_capacities (s s' : System) :
  rtc sys_step s s' -> capacities (world s') = capacities (world s).
Proof.
  induction 1 as [| s1 s2 s3 H12 _ IH]; [done |].
  rewrite IH. by apply sys_step_capacities.
Qed.

End Steps.

Section SystemSpec.
Context `{Ext : Externals}.

(** C10. The constructor creates the write queue with capacity
    [simultaneous_writes + 20], the read-result queue with capacity
    [simultaneous_reads + 20] and the read-request queue with capacity 0,
    which is no bound; and whatever the threads of the system run, the
    three capacities stay what they were: a [put] on the read-request
    queue never waits, and (for non-negative thread counts) a [put] on a
    bounded queue waits exactly when the queue holds that many items. *)
Theorem queue_capacities (config : Config) (w0 : World) :
  Null.__init__ config = inr w0 ->
  let N := getint config "simultaneous_writes" 1 in
  let M := getint config "simultaneous_reads" 1 in
  capacities w0 = (N + 20, 0, M + 20)
  /\ forall (threads0 : list thread) (s : System),
       rtc sys_step (mkSystem w0 threads0) s ->
       capacities (world s) = (N + 20, 0, M + 20)
       /\ full (_read_queue (world s)) = false
       /\ (0 <= N ->
           full (_write_queue (world s))
           = bool_decide (N + 20 <= qsize (_write_queue (world s))))
       /\ (0 <= M ->
           full (_read_data_queue (world s))
           = bool_decide (M + 20 <= qsize (_read_data_queue (world s)))).
Proof.
  intros Hinit N M.
  assert (Hc0 : capacities w0 = (N + 20, 0, M + 20)).
  { unfold Null.__init__ in Hinit.
    destruct (filter _ _) as [|[key value] rest]; [done |].
    destruct (int value) as [e | size]; [done |].
    by injection Hinit as <-. }
  split; [done |]. intros threads0 s Hs.
  apply rtc_sys_step_capacities in Hs. simpl in Hs. rewrite Hc0 in Hs.
  split; [done |]. unfold capacities in Hs. injection Hs as Hw Hr Hd.
  unfold full. rewrite Hw, Hr, Hd. split; [done |]. split; intros Hpos.
  - destruct (Z.ltb_spec 0 (N + 20)); [| lia]. simpl.
    destruct (Z.leb_spec (N + 20) (qsize (_write_queue (world s))));
      symmetry; [by apply bool_decide_eq_true | apply bool_decide_eq_false; lia].
  - destruct (Z.ltb_spec 0 (M + 20)); [| lia]. simpl.
    destruct (Z.leb_spec (M + 20) (qsize (_read_data_queue (world s))));
      symmetry; [by apply bool_decide_eq_true | apply bool_decide_eq_false; lia].
Qed.

Lemma thread_step_no_reader (w w' : World) (th : thread) (th' : option thread) :
  thread_step w th w' th' ->
  ~ is_reader th -> well_behaved th ->
  queue (_read_queue w) `prefix_of` queue (_read_queue w')
  /\ match th' with
     | Some th'' => ~ is_reader th'' /\ well_behaved th''
     | None => True
     end.
Proof.
  destruct 1 as [t pc ev pc' w' Hs | t pc e Hs | t e | t | t
                | R pc ev pc' w' Hs | R pc e Hs | R pc R' p Hs Hapi];
    intros Hnr Hwb; try (split; [done | try done]).
  - destruct t as [i | i]; [| done]. simpl in Hwb.
    destruct (head_step_avoids _ _ _ _ _ _ Hwb Hs) as [Hev Hpc'].
    split; [by eapply head_step_read_queue | done].
  - split; [done |]. destruct t; [| done]. simpl. constructor.
  - split; [done |]. destruct t; [| done]. simpl. apply writer_avoids.
  - simpl in Hwb.
    destruct (head_step_avoids _ _ _ _ _ _ Hwb Hs) as [Hev Hpc'].
    split; [by eapply head_step_read_queue | done].
  - split; [done |]. simpl. constructor.
  - split; [done |]. simpl. by apply api_avoids.
Qed.

Lemma thread_step_well_behaved (w w' : World) (th th' : thread) :
  thread_step w th w' (Some th') -> well_behaved th -> well_behaved th'.
Proof.
  intros Hs Hwb.
  destruct th as [[i | i] pc | R pc].
  - destruct (thread_step_no_reader _ _ _ _ Hs) as [_ [_ H]]; [simpl; tauto | done | done].
  - remember (Worker (ReaderThread i) pc) as th eqn:Hth.
    remember (Some th') as oth eqn:Hoth.
    destruct Hs; try discriminate Hth; try discriminate Hoth;
      injection Hoth as <-; by injection Hth as -> _.
  - destruct (thread_step_no_reader _ _ _ _ Hs) as [_ [_ H]]; [simpl; tauto | done | done].
Qed.

Lemma rtc_sys_step_well_behaved (s s' : System) :
  rtc sys_step s s' ->
  Forall well_behaved (threads s) -> Forall well_behaved (threads s').
Proof.
  induction 1 as [| s1 s2 s3 H12 _ IH]; intros Hwb; [done |]. apply IH.
  destruct H12 as [s1 i th w' th' Hi Hstep]. simpl.
  pose proof (Forall_lookup_1 _ _ _ _ Hwb Hi) as Hth.
  destruct th' as [th'' |]; [| by apply Forall_delete].
  apply Forall_insert; [done |]. by eapply thread_step_well_behaved.
Qed.

(** Every thread of a system that has run from its construction is at a
    point of its loop body or of a public method. *)
Lemma reachable_well_behaved (w : World) (clients : nat) (s : System) :
  rtc sys_step (boot w clients) s -> Forall well_behaved (threads s).
Proof.
  intros Hs. apply (rtc_sys_step_well_behaved _ _ Hs).
  simpl. apply Forall_app. split.
  - apply Forall_fmap, Forall_true. intros [i | i]; simpl; [| done].
    apply writer_avoids.
  - apply Forall_replicate. simpl. constructor.
Qed.

Lemma sys_step_no_reader (s s' : System) :
  sys_step s s' ->
  Forall (fun th => ~ is_reader th) (threads s) ->
  Forall well_behaved (threads s) ->
  queue (_read_queue (world s)) `prefix_of` queue (_read_queue (world s'))
  /\ Forall (fun th => ~ is_reader th) (threads s')
  /\ Forall well_behaved (threads s').
Proof.
  destruct 1 as [s i th w' th' Hi Hs]. intros Hnr Hwb.
  pose proof (Forall_lookup_1 _ _ _ _ Hnr Hi) as Hnr1.
  pose proof (Forall_lookup_1 _ _ _ _ Hwb Hi) as Hwb1.
  destruct (thread_step_no_reader _ _ _ _ Hs Hnr1 Hwb1) as [Hpre Hth'].
  split; [done |]. simpl. destruct th' as [th'' |].
  - destruct Hth'. split; by apply Forall_insert.
  - split; by apply Forall_delete.
Qed.

Lemma rtc_sys_step_no_reader (s s' : System) :
  rtc sys_step s s' ->
  Forall (fun th => ~ is_reader th) (threads s) ->
  Forall well_behaved (threads s) ->
  queue (_read_queue (world s)) `prefix_of` queue (_read_queue (world s')).
Proof.
  induction 1 as [| s1 s2 s3 H12 _ IH]; intros Hnr Hwb; [done |].
  destruct (sys_step_no_reader _ _ H12 Hnr Hwb) as (Hpre & Hnr2 & Hwb2).
  etrans; [exact Hpre |]. by apply IH.
Qed.

(** C9. The asynchronous [read], of the base class and of the null
    backend alike, reads neither [last_exception] nor [fatal_error]:
    whatever they hold, on the unbounded read-request queue it enqueues the
    block and returns [None]. A reader that finds [fatal_error] set takes
    a request from the queue and leaves its loop, delivering nothing. If no
    reader thread is left, the block stays in the queue whatever the
    clients and the writers do: no [read_get] will ever deliver it. *)
Theorem async_read_accepts (w : World) (self : klass) (block : Block.t) :
  avoids reads_latch (Base.read (self_read_get self) block false)
  /\ avoids reads_latch (Null.read block false)
  /\ (maxsize (_read_queue w) <= 0 ->
      run (Base.read (self_read_get self) block false) w
      = Returned PyNone (enqueued ReadQ (Some block) w)
      /\ run (Null.read block false) w
         = Returned PyNone (enqueued ReadQ (Some block) w))
  /\ (forall (id_ : nat) (e : exn) (rest : list (option Block.t)),
        fatal_error (attrs w) = Some e ->
        queue (_read_queue w) = Some block :: rest ->
        run (Null._reader id_) w = Returned Break (dequeued ReadQ w)
        /\ _read_data_queue (dequeued ReadQ w) = _read_data_queue w)
  /\ (forall s s' : System,
        world s = enqueued ReadQ (Some block) w ->
        Forall (fun th => ~ is_reader th) (threads s) ->
        Forall well_behaved (threads s) ->
        rtc sys_step s s' ->
        Some block ∈ queue (_read_queue (world s'))).
Proof.
  split; [unfold Base.read; solve_avoids |].
  split; [unfold Null.read; solve_avoids |].
  split; [| split].
  - intros Hmax.
    assert (Hfull : full (_read_queue w) = false).
    { unfold full. by destruct (Z.ltb_spec 0 (maxsize (_read_queue w))); [lia |]. }
    split; [| by rewrite Null_read_async, Hfull].
    unfold Base.read, self_read_get. rewrite run_bind, run_put. cbn [getq elem].
    by rewrite Hfull.
  - intros id_ e rest Hf Hq. split; [| done].
    unfold Null._reader. simpl. unfold q_get. rewrite Hq. simpl.
    by rewrite Hf.
  - intros s s' Hw Hnr Hwb Hsteps.
    apply rtc_sys_step_no_reader in Hsteps as [rest ->]; [| done | done].
    rewrite Hw. simpl. apply elem_of_app. left. apply elem_of_app. right.
    by left.
Qed.

End SystemSpec.

Section WriterPass.
Context `{Ext : Externals}.


End WriterPass.

(** * The properties at work on the reference collaborators *)

Section Examples.
Existing Instance Fixture.externals.

Import Fixture.

Example md5_of_nothing :
  MD5.hexdigest [] = "d41d8cd98f00b204e9800998ecf8427e"%string.
Proof. vm_compute. reflexivity. Qed.

Example md5_of_abc :
  MD5.hexdigest (list_byte_of_string "abc")
  = "900150983cd24fb0d6963f7d28e17f72"%string.
Proof. vm_compute. reflexivity. Qed.

Example first_token : shortuuid_uuid 0 = "WAZfCyu2HzWzNAcfwFKCt6"%string.
Proof. vm_compute. reflexivity. Qed.

Example constructed : Null.__init__ config = inr null_backend.
Proof. reflexivity. Qed.

Example first_uid : uid_of_token (shortuuid_uuid 0) = inr uid0.
Proof. vm_compute. reflexivity. Qed.

(** The first uid of the reference backend: its token, the bytes that are
    hashed, and the ten characters of the digest in front. *)
Lemma uid_format_witness :
  shortuuid_uuid (draws null_backend) = "WAZfCyu2HzWzNAcfwFKCt6"%string
  /\ map Byte.to_N (list_byte_of_string "WAZfCyu2HzWzNAcfwFKCt6")
     = [87; 65; 90; 102; 67; 121; 117; 50; 72; 122; 87; 122; 78; 65; 99; 102;
        119; 70; 75; 67; 116; 54]%N
  /\ MD5.hexdigest (list_byte_of_string "WAZfCyu2HzWzNAcfwFKCt6")
     = "6eb58146727a3237086159a30f5f226f"%string
  /\ run Base._uid null_backend
     = Returned "6eb5814672WAZfCyu2HzWzNAcfwFKCt6"%string (drawn null_backend)
  /\ run Null._uid null_backend
     = Returned "6eb5814672WAZfCyu2HzWzNAcfwFKCt6"%string (drawn null_backend)
  /\ String.length "6eb5814672WAZfCyu2HzWzNAcfwFKCt6" = 32%nat
  /\ matches_uid_format "6eb5814672WAZfCyu2HzWzNAcfwFKCt6" = true.
Proof.
  assert (Htoken : shortuuid_uuid (draws null_backend)
                   = "WAZfCyu2HzWzNAcfwFKCt6"%string) by exact first_token.
  assert (Huid : (substring 0 10
                    (md5_hexdigest
                       (list_byte_of_string (shortuuid_uuid (draws null_backend))))
                  ++ shortuuid_uuid (draws null_backend))%string
                 = "6eb5814672WAZfCyu2HzWzNAcfwFKCt6"%string)
    by (vm_compute; reflexivity).
  destruct (uid_format null_backend) as (Hcodes & _ & Hbase & Hnull & Hlen & Hfmt).
  - vm_compute. reflexivity.
  - vm_compute. reflexivity.
  - rewrite Huid in Hbase, Hnull, Hlen, Hfmt. rewrite Htoken in Hcodes.
    split; [exact Htoken |]. split; [exact Hcodes |].
    split; [vm_compute; reflexivity |].
    split; [exact Hbase |]. split; [exact Hnull |]. split; [exact Hlen | exact Hfmt].
Defined.

(** [save] on a failed backend, on a working one, and on the null
    backend. *)
Lemma save_spec_witness :
  run (Base.save hello true None) failed_backend
  = Raised connection_lost failed_backend
  /\ (exists p_put p_join : Prog string,
        run (Base.save hello true None) backend = run p_put (drawn backend)
        /\ awaits p_put (fun w1 => negb (full (_write_queue w1)))
             (fun w1 => run p_join (enqueued WriteQ (Some (Entry3 uid0 hello None)) w1))
        /\ awaits p_join (fun w2 => q_joinable (_write_queue w2))
             (fun w2 => Returned uid0 w2))
  /\ run (Null.save hello true) (with_fatal_error (Some connection_lost) null_backend)
     = Raised connection_lost (with_fatal_error (Some connection_lost) null_backend)
  /\ run (Null.save hello true) null_backend = Returned uid0 (drawn null_backend).
Proof.
  split.
  { apply (proj1 (save_spec failed_backend hello true None)). reflexivity. }
  split.
  { apply (proj1 (proj2 (save_spec backend hello true None)) uid0).
    - reflexivity.
    - exact first_uid. }
  split.
  { apply (proj1 (proj2 (proj2
             (save_spec (with_fatal_error (Some connection_lost) null_backend)
                hello true None)))).
    reflexivity. }
  apply (proj2 (proj2 (proj2 (save_spec null_backend hello true None))) uid0).
  - reflexivity.
  - exact first_uid.
Defined.

(** Counterexample to C1 as it was stated, on the null backend: with no
    error latched, [save] returns and no job has been enqueued. *)
Lemma null_save_enqueues_nothing :
  fatal_error (attrs null_backend) = None
  /\ ~ (forall uid w',
          run (Null.save hello false) null_backend = Returned uid w' ->
          exists job,
            queue (_write_queue w')
            = queue (_write_queue null_backend) ++ [Some job]).
Proof.
  split; [reflexivity |]. intros H.
  destruct (H uid0 (drawn null_backend)) as [job Hjob].
  - rewrite Null_save_run.
    change (uid_of_token (shortuuid_uuid (draws null_backend)))
      with (uid_of_token (shortuuid_uuid 0)).
    by rewrite first_uid.
  - discriminate Hjob.
Qed.

(** The null backend's synchronous [read] of a block, on the backend as
    constructed. *)
Lemma Null_read_sync_unbound_witness :
  run (Null.read block1 true) null_backend
  = Raised (UnboundLocalError "rblock") (enqueued ReadQ (Some block1) null_backend)
  /\ _read_data_queue (enqueued ReadQ (Some block1) null_backend)
     = _read_data_queue null_backend.
Proof.
  apply (proj2 (Null_read_sync_unbound null_backend block1)). reflexivity.
Defined.

(** Counterexample to C3 as it was stated, on the null backend: [save]
    of five bytes and a synchronous [read] of a block with the uid returned
    do not return those bytes; they end the same way as after a [save] of
    no bytes at all. *)
Lemma null_round_trip_fails :
  (~ exists w',
       run (uid <- Null.save hello false ;;
            Null.read (Block.mk 1 uid 5) true) null_backend
       = Returned (PyBytes hello) w')
  /\ run (uid <- Null.save hello false ;;
          Null.read (Block.mk 1 uid 5) true) null_backend
     = run (uid <- Null.save [] false ;;
            Null.read (Block.mk 1 uid 5) true) null_backend.
Proof.
  split; [| apply Null_save_data_independent].
  intros [w' H]. rewrite run_bind, Null_save_run in H.
  change (uid_of_token (shortuuid_uuid (draws null_backend)))
    with (uid_of_token (shortuuid_uuid 0)) in H.
  rewrite first_uid in H.
  change (fatal_error (attrs null_backend)) with (@None exn) in H.
  cbv beta iota in H.
  rewrite Null_read_sync_run in H. by destruct (full _).
Qed.

(** What reading delivers on the null backend after a [save]. *)
Lemma Null_save_stores_nothing_witness :
  exists w',
    run (uid <- Null.save hello false ;;
         Null.read (Block.mk 1 uid 5) false ;;
         Null._reader 0 ;;
         Null.read_get) null_backend
    = Returned (Block.mk 1 uid0 5, 0, 5%nat,
                Some (repeat Byte.x00 5)) w'.
Proof.
  apply (proj2 (proj2 (Null_save_stores_nothing null_backend hello false))
           uid0 1 5 0%nat).
  - reflexivity.
  - exact first_uid.
  - reflexivity.
  - reflexivity.
  - simpl. lia.
  - simpl. lia.
Defined.

(** [read_get] of the base class on a failed backend, on an idle one, and
    on a backend with a completed result. *)
Lemma read_get_spec_witness :
  run (Base.read_get 30) failed_backend = Raised connection_lost failed_backend
  /\ (exists p,
        run (Base.read_get 30) backend = Blocked p backend
        /\ budget p = Some 30
        /\ timed_out p = Some (Raise queue_Empty))
  /\ run (Base.read_get 30) (delivered (block1, Some hello) backend)
     = Returned (block1, 0, 5%nat, Some hello)
         (marked_done ReadDataQ
            (dequeued ReadDataQ (delivered (block1, Some hello) backend))).
Proof.
  split.
  { apply (proj1 (read_get_spec failed_backend 30)). reflexivity. }
  split.
  { destruct (proj1 (proj2 (read_get_spec backend 30)) eq_refl ltac:(lia))
      as (p & Hrun & Hbudget & Hend & Hwait & _).
    exists p. rewrite Hrun. split; [by apply Hwait |]. by split. }
  destruct (proj1 (proj2 (read_get_spec (delivered (block1, Some hello) backend) 30))
              eq_refl ltac:(lia)) as (p & -> & _ & _ & _ & Hdata).
  apply (Hdata _ block1 hello []); [reflexivity | simpl; lia].
Defined.

(** Counterexample to C4 as it was stated, on the null backend: with no
    completed result its [read_get] waits, and no time budget ends the
    wait. *)
Lemma null_read_get_has_no_timeout :
  queue (_read_data_queue null_backend) = []
  /\ run Null.read_get null_backend = Blocked Null.read_get null_backend
  /\ budget Null.read_get = None
  /\ ~ exists e, timed_out Null.read_get = Some (Raise e).
Proof.
  split; [reflexivity |]. split; [reflexivity |]. split; [reflexivity |].
  by intros [e He].
Qed.

(** The base class's [read_get] and synchronous [read] on a completed
    result without data. *)
Lemma read_get_absent_data_witness :
  run (Base.read_get 30) (delivered (block1, None) backend)
  = Raised no_len (dequeued ReadDataQ (delivered (block1, None) backend))
  /\ run (Base.read (self_read_get BaseDataBackend) block1 true)
       (delivered (block1, None) backend)
     = Raised no_len
         (dequeued ReadDataQ
            (enqueued ReadQ (Some block1) (delivered (block1, None) backend))).
Proof.
  destruct (read_get_absent_data (delivered (block1, None) backend) 30 block1 [])
    as [Hget Hread]; [reflexivity | lia | reflexivity |].
  split; [exact Hget | by apply Hread].
Defined.



(** [close] on a backend whose workers have ended. *)
Lemma close_spec_witness :
  exists w',
    run Base.close (stopped null_backend) = Returned tt w'
    /\ queue (_write_queue w') = [None; None]
    /\ queue (_read_queue w') = [None].
Proof.
  apply (proj2 (proj2 (proj2 (proj2
           (close_spec others (fun _ _ H => H) (stopped null_backend)))))).
  - intros t _ Ht. by apply not_elem_of_nil in Ht.
  - right. vm_compute. discriminate.
  - left. vm_compute. discriminate.
Defined.

(** An asynchronous [read] on a failed backend without readers, and the
    request one step of a client later. *)
Lemma async_read_accepts_witness :
  run (Base.read (self_read_get BaseDataBackend) block1 false)
    (stopped failed_backend)
  = Returned PyNone (enqueued ReadQ (Some block1) (stopped failed_backend))
  /\ Some block1
     ∈ queue (_read_queue
                (world (mkSystem (enqueued ReadQ (Some block1) (stopped failed_backend))
                          [Client (Base.read_get 30)]))).
Proof.
  split.
  { apply (proj1 (proj2 (proj2
             (async_read_accepts (stopped failed_backend) BaseDataBackend block1)))).
    simpl. lia. }
  apply (proj2 (proj2 (proj2 (proj2
           (async_read_accepts (stopped failed_backend) BaseDataBackend block1))))
           (mkSystem (enqueued ReadQ (Some block1) (stopped failed_backend))
              [Client (Ret tt)])).
  - reflexivity.
  - constructor; [simpl; tauto | constructor].
  - constructor; [simpl; constructor | constructor].
  - apply rtc_once.
    apply (sys_step_thread
             (mkSystem (enqueued ReadQ (Some block1) (stopped failed_backend))
                [Client (Ret tt)])
             0 (Client (Ret tt)) _ (Some (Client (Base.read_get 30))));
      [reflexivity |].
    apply step_client_call; [reflexivity | constructor].
Defined.

(** The capacities of the queues of the backend as constructed. *)
Lemma queue_capacities_witness : capacities null_backend = (22, 0, 21).
Proof. apply (queue_capacities config null_backend constructed). Defined.

End Examples.

(** * Further properties *)

(** ** A pass of a reader of the null backend *)

Section ReaderPass.
Context `{Ext : Externals}.

Lemma Null_reader_run (w : World) (id_ : nat) :
  run (Null._reader id_) w =
  match queue (_read_queue w) with
  | [] => Blocked (Null._reader id_) w
  | None :: _ => Returned Break (dequeued ReadQ w)
  | Some block :: _ =>
      match fatal_error (attrs w) with
      | Some _ => Returned Break (dequeued ReadQ w)
      | None =>
          let g := generate_block (Block.id block) (Block.size block) in
          run (call (Put ReadDataQ (block, Some g)) ;; after_delivery)
            (fetched id_ (len g) w)
      end
  end.
Proof.
  unfold Null._reader, Null.read_raw, fetched, dequeued, after_delivery.
  simpl. unfold q_get.
  destruct (queue (_read_queue w)) as [|[block|] rest]; simpl; try done.
  destruct (fatal_error (attrs w)); simpl; try done.
  by destruct (consume _ (read_throttling w)) as [d b].
Qed.

(** X2. A pass of a reader: it waits, without a time budget, for a request;
    on the stop sentinel it leaves the loop; on a request, with no error
    latched, it fetches [generate_block(block.id, block.size)], charges the
    read throttle with its length and is back to status nothing before it
    delivers; it then waits while the read-result queue is full, holding
    the request it has taken, and once there is room it puts the result at
    the end of that queue, marks the request done and goes round again. The
    write queue, the writers' statuses and the write throttle are not
    touched. *)
Theorem reader_pass (w : World) (id_ : nat) :
  (queue (_read_queue w) = [] ->
   run (Null._reader id_) w = Blocked (Null._reader id_) w
   /\ timed_out (Null._reader id_) = None)
  /\ (forall rest,
        queue (_read_queue w) = None :: rest ->
        run (Null._reader id_) w = Returned Break (dequeued ReadQ w))
  /\ (forall block rest,
        queue (_read_queue w) = Some block :: rest ->
        fatal_error (attrs w) = None ->
        let g := generate_block (Block.id block) (Block.size block) in
        let w1 := fetched id_ (len g) w in
        reader_thread_status w1 !! id_ = Some STATUS_NOTHING
        /\ queue (_read_queue w1) = rest
        /\ read_throttling w1 = snd (consume (len g) (read_throttling w))
        /\ (_write_queue w1, writer_thread_status w1, write_throttling w1)
           = (_write_queue w, writer_thread_status w, write_throttling w)
        /\ (full (_read_data_queue w) = false ->
            0 < unfinished_tasks (_read_queue w) ->
            let w2 := marked_done ReadQ (enqueued ReadDataQ (block, Some g) w1) in
            run (Null._reader id_) w = Returned Continue w2
            /\ queue (_read_data_queue w2)
               = queue (_read_data_queue w) ++ [(block, Some g)])
        /\ (full (_read_data_queue w) = true ->
            exists p : Prog ctl,
              run (Null._reader id_) w = Blocked p w1
              /\ timed_out p = None
              /\ awaits p (fun w' => negb (full (_read_data_queue w')))
                   (fun w' =>
                      run after_delivery
                        (enqueued ReadDataQ (block, Some g) w')))).
Proof.
  split; [intros Hq; by rewrite Null_reader_run, Hq |].
  split; [intros rest Hq; by rewrite Null_reader_run, Hq |].
  intros block rest Hq Hf. cbv zeta.
  set (g := generate_block (Block.id block) (Block.size block)).
  assert (Hrun : run (Null._reader id_) w
                 = if full (_read_data_queue w)
                   then Blocked (call (Put ReadDataQ (block, Some g)) ;; after_delivery)
                          (fetched id_ (len g) w)
                   else run after_delivery
                          (enqueued ReadDataQ (block, Some g) (fetched id_ (len g) w))).
  { rewrite Null_reader_run, Hq, Hf. cbv zeta. fold g.
    rewrite (awaits_put ReadDataQ (block, Some g) after_delivery).
    change (full (getq ReadDataQ (fetched id_ (len g) w)))
      with (full (_read_data_queue w)).
    by destruct (full (_read_data_queue w)). }
  split; [unfold fetched; simpl; by rewrite lookup_insert_eq |].
  split; [unfold fetched; simpl; by rewrite Hq |].
  split; [done |]. split; [done |].
  split.
  - intros Hfull Hu. rewrite Hrun, Hfull. split; [| done].
    unfold after_delivery, call. cbn [bind]. rewrite run_Do, exec_task_done; [done |].
    simpl. lia.
  - intros Hfull.
    exists (call (Put ReadDataQ (block, Some g)) ;; after_delivery).
    split; [by rewrite Hrun, Hfull |].
    split; [done |]. apply (awaits_put ReadDataQ).
Qed.

End ReaderPass.

(** ** Uids and tokens *)

Section UidTokens.
Context `{Ext : Externals}.

Lemma string_of_list_inj (s1 s2 : string) :
  list_ascii_of_string s1 = list_ascii_of_string s2 -> s1 = s2.
Proof.
  intros H. rewrite <- (string_of_list_ascii_of_string s1),
    <- (string_of_list_ascii_of_string s2). by rewrite H.
Qed.

Lemma uid_of_token_chars (suuid uid : string) :
  uid_of_token suuid = inr uid ->
  exists b,
    encode_ascii suuid = inr b
    /\ list_ascii_of_string uid
       = take 10 (list_ascii_of_string (md5_hexdigest b))
         ++ list_ascii_of_string suuid.
Proof.
  unfold uid_of_token. destruct (encode_ascii suuid) as [e | b]; [done |].
  intros [= <-]. exists b. split; [done |].
  by rewrite list_ascii_of_string_app, list_ascii_of_string_prefix.
Qed.

Lemma uid_drops_to_token (suuid uid : string) :
  uid_of_token suuid = inr uid ->
  (forall b, encode_ascii suuid = inr b ->
             (10 <= String.length (md5_hexdigest b))%nat) ->
  list_ascii_of_string suuid = drop 10 (list_ascii_of_string uid).
Proof.
  intros Hu Hd. destruct (uid_of_token_chars _ _ Hu) as (b & Hb & ->).
  specialize (Hd b Hb). rewrite string_length_list in Hd.
  rewrite drop_app_length'; [done |]. rewrite length_take. lia.
Qed.

Lemma uid_eq_token_eq (suuid1 suuid2 uid1 uid2 : string) :
  uid_of_token suuid1 = inr uid1 ->
  uid_of_token suuid2 = inr uid2 ->
  (forall b, encode_ascii suuid1 = inr b ->
             (10 <= String.length (md5_hexdigest b))%nat) ->
  (forall b, encode_ascii suuid2 = inr b ->
             (10 <= String.length (md5_hexdigest b))%nat) ->
  uid1 = uid2 <-> suuid1 = suuid2.
Proof.
  intros H1 H2 Hd1 Hd2. split.
  - intros <-. apply string_of_list_inj.
    rewrite (uid_drops_to_token _ _ H1 Hd1).
    by rewrite (uid_drops_to_token _ _ H2 Hd2).
  - intros <-. congruence.
Qed.

(** X3. The token is what follows the first ten characters of the uid,
    so two uids are the same exactly when their tokens are: the prefix
    adds nothing to tell uids apart. It holds for digests of ten
    characters or more, as hashlib prints them. *)
Theorem uid_determines_token (suuid1 suuid2 uid1 uid2 : string) :
  uid_of_token suuid1 = inr uid1 ->
  uid_of_token suuid2 = inr uid2 ->
  (forall b, encode_ascii suuid1 = inr b ->
             (10 <= String.length (md5_hexdigest b))%nat) ->
  (forall b, encode_ascii suuid2 = inr b ->
             (10 <= String.length (md5_hexdigest b))%nat) ->
  list_ascii_of_string suuid1 = drop 10 (list_ascii_of_string uid1)
  /\ (uid1 = uid2 <-> suuid1 = suuid2).
Proof.
  intros H1 H2 Hd1 Hd2.
  split; [by apply uid_drops_to_token | by apply uid_eq_token_eq].
Qed.

(** X4. Two [save]s in a row on the null backend draw two tokens in a
    row and change nothing else: they return the same uid only if
    shortuuid returned the same token twice. *)
Theorem successive_saves (w w' : World) (d1 d2 : bytes) (s1 s2 : bool)
    (uid1 uid2 : string) :
  run (a <- Null.save d1 s1 ;; b <- Null.save d2 s2 ;; Ret (a, b)) w
  = Returned (uid1, uid2) w' ->
  (forall b, encode_ascii (shortuuid_uuid (draws w)) = inr b ->
             (10 <= String.length (md5_hexdigest b))%nat) ->
  (forall b, encode_ascii (shortuuid_uuid (S (draws w))) = inr b ->
             (10 <= String.length (md5_hexdigest b))%nat) ->
  uid_of_token (shortuuid_uuid (draws w)) = inr uid1
  /\ uid_of_token (shortuuid_uuid (S (draws w))) = inr uid2
  /\ w' = drawn (drawn w)
  /\ (uid1 = uid2 <-> shortuuid_uuid (draws w) = shortuuid_uuid (S (draws w))).
Proof.
  intros Hrun Hd1 Hd2. rewrite run_bind, Null_save_run in Hrun.
  destruct (fatal_error (attrs w)) eqn:Hf; [done |].
  destruct (uid_of_token (shortuuid_uuid (draws w))) as [e | u1] eqn:Hu1; [done |].
  rewrite run_bind, Null_save_run in Hrun.
  change (fatal_error (attrs (drawn w))) with (fatal_error (attrs w)) in Hrun.
  rewrite Hf in Hrun.
  change (draws (drawn w)) with (S (draws w)) in Hrun.
  destruct (uid_of_token (shortuuid_uuid (S (draws w)))) as [e | u2] eqn:Hu2;
    [done |].
  simpl in Hrun. injection Hrun as <- <- <-.
  split; [done |]. split; [done |]. split; [done |].
  by apply (uid_eq_token_eq _ _ _ _ Hu1 Hu2).
Qed.

End UidTokens.

(** ** Construction *)

Section Construction.
Context `{Ext : Externals}.

Lemma status_map_lookup (n i : nat) :
  (list_to_map (map (fun i => (i, STATUS_NOTHING)) (seq 0 n)) : gmap nat Z) !! i
  = if decide (i < n)%nat then Some STATUS_NOTHING else None.
Proof.
  assert (Hfst : map fst (map (fun i : nat => (i, STATUS_NOTHING)) (seq 0 n))
                 = seq 0 n).
  { rewrite map_map. simpl. apply map_id. }
  destruct (decide (i < n)%nat) as [Hi | Hi].
  - apply elem_of_list_to_map_1.
    + change (NoDup (map fst (map (fun i : nat => (i, STATUS_NOTHING)) (seq 0 n)))).
      rewrite Hfst. apply NoDup_seq.
    + apply list_elem_of_In, in_map_iff. exists i. split; [done |].
      apply in_seq. lia.
  - apply not_elem_of_list_to_map_1.
    change (i ∉ map fst (map (fun i : nat => (i, STATUS_NOTHING)) (seq 0 n))).
    rewrite Hfst. intros Hin%list_elem_of_In%in_seq. lia.
Qed.

Lemma filter_block_size_nil (l : list (string * string)) :
  Forall (fun kv => kv.1 <> "block_size"%string) l ->
  filter (fun kv => String.eqb (fst kv) "block_size") l = [].
Proof.
  induction 1 as [| [key value] l Hkv _ IH]; [done |].
  rewrite filter_cons_False; [done |].
  simpl in *. intros Heq%Is_true_true%String.eqb_eq. done.
Qed.

Lemma workers_NoDup (n m : Z) :
  NoDup (map WriterThread (range n) ++ map ReaderThread (range m)).
Proof.
  apply NoDup_app. split; [| split].
  - apply NoDup_fmap_2; [by intros ? ? [= ->] | apply NoDup_seq].
  - intros t [i [-> _]]%list_elem_of_fmap [j [[=] _]]%list_elem_of_fmap.
  - apply NoDup_fmap_2; [by intros ? ? [= ->] | apply NoDup_seq].
Qed.

(** X1. The constructor fails with [IndexError] when the [DEFAULTS]
    section has no [block_size] item, and with what [int] raises when the
    first such item is no number; otherwise [int] of the first such item
    gives the block size, an option that is missing counts for its
    default, a negative thread count for none, and the backend starts with
    empty queues, no error latched, one worker of each pool per index
    below the thread count, each started once and at status nothing, and
    no other status slot. *)
Theorem init_spec (config : Config) :
  let n := getint config "simultaneous_writes" 1 in
  let m := getint config "simultaneous_reads" 1 in
  (Forall (fun kv => kv.1 <> "block_size"%string) (DEFAULTS config) ->
   Null.__init__ config = inl (IndexError "list index out of range"))
  /\ (forall before value after e,
        DEFAULTS config = before ++ ("block_size"%string, value) :: after ->
        Forall (fun kv => kv.1 <> "block_size"%string) before ->
        int value = inl e ->
        Null.__init__ config = inl e)
  /\ (forall before value after size,
        DEFAULTS config = before ++ ("block_size"%string, value) :: after ->
        Forall (fun kv => kv.1 <> "block_size"%string) before ->
        int value = inr size ->
        exists w,
          Null.__init__ config = inr w
          /\ default_block_size (attrs w) = size
          /\ fatal_error (attrs w) = None
          /\ (queue (_write_queue w), queue (_read_queue w),
               queue (_read_data_queue w)) = ([], [], [])
          /\ (unfinished_tasks (_write_queue w), unfinished_tasks (_read_queue w),
               unfinished_tasks (_read_data_queue w)) = (0, 0, 0)
          /\ _writer_threads (attrs w) = map WriterThread (seq 0 (Z.to_nat n))
          /\ _reader_threads (attrs w) = map ReaderThread (seq 0 (Z.to_nat m))
          /\ live w = _writer_threads (attrs w) ++ _reader_threads (attrs w)
          /\ NoDup (live w)
          /\ (forall i,
                writer_thread_status w !! i
                = if decide (i < Z.to_nat n)%nat then Some STATUS_NOTHING else None)
          /\ (forall i,
                reader_thread_status w !! i
                = if decide (i < Z.to_nat m)%nat then Some STATUS_NOTHING else None)
          /\ write_throttling w
             = set_rate (getint config "bandwidth_write" 0) TokenBucket_new
          /\ read_throttling w
             = set_rate (getint config "bandwidth_read" 0) TokenBucket_new)
  /\ (forall key default,
        options config !! key = None -> getint config key default = default).
Proof.
  intros n m. split.
  { intros Hno. unfold Null.__init__. by rewrite filter_block_size_nil. }
  split.
  { intros before value after e Hd Hbefore Hint. unfold Null.__init__.
    rewrite Hd, filter_app, filter_block_size_nil by done.
    rewrite filter_cons_True by done. simpl. by rewrite Hint. }
  split.
  - intros before value after size Hd Hbefore Hint. unfold Null.__init__.
    rewrite Hd, filter_app, filter_block_size_nil by done.
    rewrite filter_cons_True by done. simpl. rewrite Hint.
    eexists. split; [reflexivity |]. simpl.
    repeat (split; [done |]).
    split; [apply workers_NoDup |].
    split; [intros i; apply status_map_lookup |].
    split; [intros i; apply status_map_lookup |].
    done.
  - intros key default Hk. unfold getint. by rewrite Hk.
Qed.

End Construction.

(** ** The queues stay within their bounds *)

Section Bounds.
Context `{Ext : Externals}.

Lemma head_step_exec {R : Type} (p p1 : Prog R) (w w1 : World) (ev : event) :
  head_step p w = Advance ev p1 w1 ->
  exists X (a : action X) (k : X -> Prog R),
    p = Do a k /\ ev = Ev a
    /\ ((exists x, exec a w = Ok x w1 /\ p1 = k x)
        \/ (exists e, exec a w = Err e w1 /\ p1 = Raise e)).
Proof.
  destruct p as [r | e | X a k]; simpl; try done.
  destruct (exec a w) as [x w' | e w' |] eqn:He; intros [= <- <- <-];
    exists X, a, k; eauto 8.
Qed.

Lemma exec_within_bound {X : Type} (a : action X) (w : World) :
  (forall q, within_bound (getq q w)) ->
  match exec a w with
  | Ok _ w' | Err _ w' => forall q, within_bound (getq q w')
  | Wait => True
  end.
Proof.
  intros Hw.
  destruct a; simpl; try done.
  - by destruct (last_exception (attrs w)).
  - unfold q_put. destruct (full (getq q w)) eqn:Hfull; [done |].
    intros q0. specialize (Hw q) as Hq. specialize (Hw q0).
    unfold full, within_bound, qsize in *.
    destruct q, q0; simpl in *; try done;
      rewrite ?length_app; simpl; lia.
  - destruct (negative timeout); [done |].
    unfold q_get. destruct (queue (getq q w)) as [| y rest] eqn:Hq; [done |].
    intros q0. specialize (Hw q) as Hq'. specialize (Hw q0).
    unfold within_bound, qsize in *. rewrite Hq in Hq'.
    destruct q, q0; simpl in *; try done; lia.
  - unfold q_task_done.
    destruct (unfinished_tasks (getq q w) - 1 <? 0) eqn:Hu; [done |].
    intros q0. specialize (Hw q) as Hq'. specialize (Hw q0).
    unfold within_bound, qsize in *.
    destruct q, q0; simpl in *; try done; lia.
  - by destruct (q_joinable (getq q w)).
  - by destruct (decide (t ∈ live w)).
  - destruct (consume n (write_throttling w)). intros q. by destruct q.
  - destruct (consume n (read_throttling w)). intros q. by destruct q.
Qed.

Lemma thread_step_within_bound (w w' : World) (th : thread) (th' : option thread) :
  thread_step w th w' th' ->
  (forall q, within_bound (getq q w)) -> forall q, within_bound (getq q w').
Proof.
  intros Hstep Hw.
  assert (Hhead : forall R (p p1 : Prog R) ev,
             head_step p w = Advance ev p1 w' ->
             forall q, within_bound (getq q w')).
  { intros R p p1 ev (X & a & k & _ & _ & Hex)%head_step_exec.
    pose proof (exec_within_bound a w Hw) as Ha.
    destruct Hex as [(x & He & _) | (e & He & _)]; by rewrite He in Ha. }
  inversion Hstep; subst; eauto; intros q; by destruct q.
Qed.

Lemma rtc_sys_step_within_bound (s s' : System) :
  rtc sys_step s s' ->
  (forall q, within_bound (getq q (world s))) ->
  forall q, within_bound (getq q (world s')).
Proof.
  induction 1 as [s | s s' s'' Hstep _ IH]; [done |]. intros Hs.
  apply IH. destruct Hstep as [s i th w' th' _ Hth].
  by apply (thread_step_within_bound _ _ _ _ Hth).
Qed.

Lemma init_within_bound (config : Config) (w : World) :
  Null.__init__ config = inr w -> forall q, within_bound (getq q w).
Proof.
  unfold Null.__init__.
  destruct (filter _ (DEFAULTS config)) as [| [key value] rest]; [done |].
  destruct (int value) as [e | size]; [done |].
  intros [= <-] q. unfold within_bound, qsize. destruct q; simpl; lia.
Qed.

(** X9. The capacities that the constructor gives the write queue and
    the read-result queue bound what they hold: in every state that a
    null backend reaches from its construction, whatever its clients call,
    the write queue holds at most [simultaneous_writes + 20] entries and
    the read-result queue at most [simultaneous_reads + 20] results (for
    capacities above zero; a capacity of zero or less is no bound), and
    no queue's count of unfinished tasks is negative. *)
Theorem queues_within_bounds (config : Config) (w : World) (clients : nat)
    (s : System) :
  Null.__init__ config = inr w ->
  rtc sys_step (boot w clients) s ->
  let wcap := getint config "simultaneous_writes" 1 + 20 in
  let rcap := getint config "simultaneous_reads" 1 + 20 in
  (0 < wcap -> qsize (_write_queue (world s)) <= wcap)
  /\ (0 < rcap -> qsize (_read_data_queue (world s)) <= rcap)
  /\ (forall q, 0 <= unfinished_tasks (getq q (world s))).
Proof.
  intros Hinit Hreach wcap rcap.
  assert (Hb : forall q, within_bound (getq q (world s))).
  { apply (rtc_sys_step_within_bound _ _ Hreach).
    by apply (init_within_bound config). }
  assert (Hcap : capacities (world s) = (wcap, 0, rcap)).
  { rewrite (rtc_sys_step_capacities _ _ Hreach).
    unfold Null.__init__ in Hinit.
    destruct (filter _ (DEFAULTS config)) as [| [key value] rest]; [done |].
    destruct (int value) as [e | size]; [done |].
    by injection Hinit as <-. }
  injection Hcap as Hw _ Hr.
  split; [| split].
  - intros Hpos. destruct (Hb WriteQ) as [[Hmax | Hsize] _]; simpl in *; lia.
  - intros Hpos. destruct (Hb ReadDataQ) as [[Hmax | Hsize] _]; simpl in *; lia.
  - intros q. by destruct (Hb q).
Qed.

End Bounds.

(** ** The status slots *)


Section StatusSlots.
Context `{Ext : Externals}.











End StatusSlots.

(** ** The queue report *)

Section QueueReport.
Context `{Ext : Externals}.

Lemma true_div_zero (a : Z) : true_div a 0 = inl ZeroDivisionError.
Proof. done. Qed.

Lemma true_div_bounded (a b : Z) :
  0 <= a -> b <> 0 ->
  exists q, true_div a b = inr q
    /\ (0 < b -> a <= b -> (0 <= q /\ q <= 1)%Q)
    /\ (b < 0 -> (q <= 0)%Q).
Proof.
  intros Ha Hb. unfold true_div.
  destruct (Z.eqb_spec b 0) as [| _]; [done |].
  eexists. split; [reflexivity |].
  destruct b as [| p | p]; [done | |]; (split; [intros _ Hab | intros Hneg]);
    try lia; unfold Qle, Qdiv, Qmult, Qinv, inject_Z; simpl; lia.
Qed.

Lemma init_capacities (config : Config) (w : World) :
  Null.__init__ config = inr w ->
  capacities w
  = (getint config "simultaneous_writes" 1 + 20, 0,
     getint config "simultaneous_reads" 1 + 20).
Proof.
  unfold Null.__init__.
  destruct (filter _ (DEFAULTS config)) as [| [key value] rest]; [done |].
  destruct (int value) as [e | size]; [done |].
  by intros [= <-].
Qed.

(** X11. In every state that a null backend reaches from its construction,
    [queue_status] raises [ZeroDivisionError] when one of the two bounded
    queues was created with capacity zero (a thread count of -20), the
    read-result queue being looked at first; otherwise it returns, for a
    queue of positive capacity, a fraction between 0 and 1, and for a
    queue of negative capacity, which has no bound, a fraction that is
    not positive. *)
Theorem queue_status_spec (config : Config) (w : World) (clients : nat)
    (s : System) :
  Null.__init__ config = inr w ->
  rtc sys_step (boot w clients) s ->
  let rcap := getint config "simultaneous_reads" 1 + 20 in
  let wcap := getint config "simultaneous_writes" 1 + 20 in
  (rcap = 0 \/ wcap = 0 -> queue_status (world s) = inl ZeroDivisionError)
  /\ (rcap <> 0 -> wcap <> 0 ->
      exists st,
        queue_status (world s) = inr st
        /\ (0 < rcap -> (0 <= rq_filled st /\ rq_filled st <= 1)%Q)
        /\ (rcap < 0 -> (rq_filled st <= 0)%Q)
        /\ (0 < wcap -> (0 <= wq_filled st /\ wq_filled st <= 1)%Q)
        /\ (wcap < 0 -> (wq_filled st <= 0)%Q)).
Proof.
  intros Hinit Hreach rcap wcap.
  pose proof (rtc_sys_step_capacities _ _ Hreach) as Hcap.
  change (world (boot w clients)) with w in Hcap.
  rewrite (init_capacities _ _ Hinit) in Hcap.
  injection Hcap as Hwq _ Hrq. fold rcap in Hrq. fold wcap in Hwq.
  assert (Hb : forall q, within_bound (getq q (world s))).
  { apply (rtc_sys_step_within_bound _ _ Hreach).
    by apply (init_within_bound config). }
  pose proof (Hb ReadDataQ) as [Hr _]. pose proof (Hb WriteQ) as [Hw _].
  simpl in Hr, Hw. rewrite Hrq in Hr. rewrite Hwq in Hw.
  unfold queue_status. rewrite Hrq, Hwq.
  assert (Hrs : 0 <= qsize (_read_data_queue (world s))) by (unfold qsize; lia).
  assert (Hws : 0 <= qsize (_write_queue (world s))) by (unfold qsize; lia).
  split.
  - intros [-> | ->]; [done |].
    destruct (decide (rcap = 0)) as [-> | Hr0]; [done |].
    by destruct (true_div_bounded _ rcap Hrs Hr0) as (q & -> & _).
  - intros Hr0 Hw0.
    destruct (true_div_bounded _ rcap Hrs Hr0) as (rq & -> & Hrpos & Hrneg).
    destruct (true_div_bounded _ wcap Hws Hw0) as (wq & -> & Hwpos & Hwneg).
    eexists. split; [reflexivity |]. simpl.
    split_and!; intros; (apply Hrpos || apply Hrneg || apply Hwpos || apply Hwneg); lia.
Qed.

End QueueReport.

(** ** The not-found error *)

Section NotFound.
Context `{Ext : Externals}.

Lemma exec_answer_without (P : exn -> Prop) {X : Type} (a : action X)
    (w w' : World) (x : X) :
  latch_without P w -> exec a w = Ok x w' -> answer_without P a x.
Proof.
  intros [Hl Hf]. destruct a; simpl; try done.
  - destruct (last_exception (attrs w)) as [| v] eqn:Hv; [done |].
    intros [= <- _]. destruct v as [e |]; [by apply Hl | done].
  - intros [= <- _]. destruct (fatal_error (attrs w)) as [e |] eqn:He;
      [by apply Hf | done].
Qed.

Lemma exec_err_not_found {X : Type} (a : action X) (w w' : World) (e : exn) :
  exec a w = Err e w' -> ~ not_found e.
Proof.
  destruct a; simpl; try done.
  - destruct (last_exception (attrs w)); [| done].
    intros [= <- _]. simpl. tauto.
  - by destruct (q_put x (getq q w)).
  - destruct (negative timeout); [intros [= <- _]; simpl; tauto |].
    by destruct (q_get (getq q w)) as [[y q'] |].
  - unfold q_task_done.
    destruct (unfinished_tasks (getq q w) - 1 <? 0); [| done].
    intros [= <- _]. simpl. tauto.
  - by destruct (q_joinable (getq q w)).
  - by destruct (decide (t ∈ live w)).
  - by destruct (consume n (write_throttling w)).
  - by destruct (consume n (read_throttling w)).
Qed.

Lemma head_step_never_raises {R : Type} (p p1 : Prog R) (w w1 : World)
    (ev : event) :
  latch_without not_found w -> never_raises not_found p ->
  head_step p w = Advance ev p1 w1 -> never_raises not_found p1.
Proof.
  intros Hw Hp (X & a & k & -> & _ & Hex)%head_step_exec.
  destruct Hex as [(x & He & ->) | (e & He & ->)].
  - apply Hp. by eapply exec_answer_without.
  - simpl. by eapply exec_err_not_found.
Qed.

Lemma runs_never_raises {R : Type} (p p' : Prog R) (w w' : World)
    (tr : list (event * World)) :
  runs others p w tr p' w' ->
  latch_without not_found w -> never_raises not_found p ->
  never_raises not_found p'.
Proof.
  induction 1 as [p w | p w w1 tr p' w' [Hattrs _] _ IH
                 | p w ev p1 w1 tr p' w' Hs _ IH]; intros Hw Hp; [done | |].
  - apply IH; [| done]. unfold latch_without. by rewrite Hattrs.
  - apply IH; [| by eapply head_step_never_raises].
    destruct (head_step_frame _ _ _ _ _ Hs) as [Hattrs _].
    unfold latch_without. by rewrite Hattrs.
Qed.

Lemma encode_ascii_error (s : string) (e : exn) :
  encode_ascii s = inl e -> e = UnicodeEncodeError.
Proof.
  induction s as [| c s IH]; simpl; [done |].
  destruct (is_ascii c); [| by intros [= <-]].
  destruct (encode_ascii s); [| done]. intros [= <-]. by apply IH.
Qed.

Lemma never_raises_bind {R S : Type} (P : exn -> Prop)
    (p : Prog R) (f : R -> Prog S) :
  never_raises P p -> (forall r, never_raises P (f r)) ->
  never_raises P (bind p f).
Proof.
  intros Hp Hf. induction p as [r | e | X a k IH]; simpl in *; [done | done |].
  intros x Hx. by apply IH, Hp.
Qed.

Lemma never_raises_for_each {A : Type} (P : exn -> Prop)
    (l : list A) (body : A -> Prog unit) :
  (forall x, never_raises P (body x)) -> never_raises P (for_each l body).
Proof.
  intros Hb. induction l as [| x l IH]; simpl; [done |].
  by apply never_raises_bind.
Qed.

Ltac solve_never_raises :=
  repeat first
    [ progress (intros; simpl)
    | tauto
    | apply never_raises_for_each
    | match goal with
      | |- never_raises _ (match ?x with _ => _ end) => destruct x eqn:?
      | |- never_raises _ (bind (match ?x with _ => _ end) _) => destruct x eqn:?
      | |- never_raises _ (if ?b then _ else _) => destruct b
      | H : encode_ascii _ = inl ?e |- _ =>
          apply encode_ascii_error in H; subst e
      end
    | apply never_raises_bind ].

Lemma api_never_not_found {R : Type} (p : Prog R) :
  api p -> never_raises not_found p.
Proof.
  destruct 1;
    unfold Base.save, Base.update, Base.read, Base.read_get, Base.read_raw,
      Base.rm, Base.rm_many, Base.get_all_blob_uids, Base.close, Base._uid,
      Null.save, Null.rm, Null.rm_many, Null.read_get, Null.read,
      Null.read_queue_size, Null.get_all_blob_uids, Null.close, Null._uid,
      self_read_get;
    solve_never_raises.
Qed.

(** X6. No call of a public method ends with [FileNotFoundError], unless
    that is the exception latched in [last_exception] or in [fatal_error]:
    however the other threads interleave, the exception that the call
    raises, or that a wait of the call ends with, is another one. In
    particular the synchronous [read] of the base class never raises the
    not-found error that it has a statement for. *)
Theorem never_not_found {R : Type} (p p' : Prog R) (w w' : World)
    (tr : list (event * World)) :
  api p ->
  latch_without not_found w ->
  runs others p w tr p' w' ->
  (forall e, p' = Raise e -> ~ not_found e)
  /\ (forall e, timed_out p' = Some (Raise e) -> ~ not_found e).
Proof.
  intros Hapi Hw Hruns.
  pose proof (runs_never_raises _ _ _ _ _ Hruns Hw (api_never_not_found _ Hapi))
    as Hp'.
  split.
  - intros e ->. exact Hp'.
  - intros e. destruct p' as [r | e' | X a k]; simpl; try done.
    destruct a; simpl; try done. destruct timeout; [| done].
    intros [= <-]. simpl. tauto.
Qed.

End NotFound.

(** ** The synchronous read of the base class *)

Section BaseRead.
Context `{Ext : Externals}.

(** X5. The synchronous [read] of the base class, on an object that has
    the base class's [read_get], first enqueues its request, and the
    request stays queued however the call ends: with the latched
    exception, if there is one; waiting for a result with a time budget of
    30 seconds, at the end of which it raises [queue.Empty]; with
    [TypeError] when the oldest result has no data; with [RuntimeError],
    the result consumed, when the oldest result is for another block; and
    it returns the data when the oldest result is for the block asked
    for. *)
Theorem Base_read_sync_spec (w : World) (block : Block.t) :
  full (_read_queue w) = false ->
  let read := Base.read (self_read_get BaseDataBackend) block true in
  let w1 := enqueued ReadQ (Some block) w in
  queue (_read_queue w1) = queue (_read_queue w) ++ [Some block]
  /\ (forall e, last_exception (attrs w) = Assigned (Some e) ->
      run read w = Raised e w1)
  /\ (last_exception (attrs w) = Assigned None ->
      (queue (_read_data_queue w) = [] ->
       exists p, run read w = Blocked p w1
                 /\ budget p = Some 30
                 /\ timed_out p = Some (Raise queue_Empty))
      /\ (forall rblock rest,
            queue (_read_data_queue w) = (rblock, None) :: rest ->
            run read w = Raised no_len (dequeued ReadDataQ w1))
      /\ (forall rblock d rest,
            queue (_read_data_queue w) = (rblock, Some d) :: rest ->
            0 < unfinished_tasks (_read_data_queue w) ->
            let w2 := marked_done ReadDataQ (dequeued ReadDataQ w1) in
            queue (_read_queue w2) = queue (_read_queue w) ++ [Some block]
            /\ queue (_read_data_queue w2) = rest
            /\ run read w
               = if (Block.id rblock =? Block.id block)%Z
                 then Returned (PyBytes d) w2
                 else Raised
                        (RuntimeError
                           "Do not mix threaded reading with sync reading!") w2)).
Proof.
  intros Hfull read w1. split; [done |].
  assert (Hrun : forall f : unit -> Prog pyval,
             run (bind (call (Put ReadQ (Some block))) f) w = run (f tt) w1).
  { intros f. rewrite run_bind, run_put. cbn [getq elem]. by rewrite Hfull. }
  unfold read, Base.read, self_read_get. split.
  - intros e He. rewrite Hrun, run_bind, (Base_read_get_latched _ _ e); done.
  - intros Hl. split; [| split].
    + intros Hq. rewrite Hrun, run_bind, Base_read_get_clear by done.
      rewrite from_get_empty by done. eexists. split; [reflexivity |].
      by split.
    + intros rblock rest Hq. rewrite Hrun, run_bind, Base_read_get_clear by done.
      by rewrite (from_get_absent _ _ rblock rest).
    + intros rblock d rest Hq Hu. split; [done |].
      split; [unfold w1; simpl; by rewrite Hq |].
      rewrite Hrun, run_bind, Base_read_get_clear by done.
      rewrite (from_get_data _ _ rblock d rest) by done.
      by destruct (Block.id rblock =? Block.id block)%Z.
Qed.

End BaseRead.

(** ** Results come back in request order *)

Section InOrder.
Context `{Ext : Externals}.

Lemma Null_reader_delivers (w : World) (id_ : nat) (block : Block.t)
    (rest : list (option Block.t)) :
  queue (_read_queue w) = Some block :: rest ->
  fatal_error (attrs w) = None ->
  full (_read_data_queue w) = false ->
  0 < unfinished_tasks (_read_queue w) ->
  run (Null._reader id_) w
  = Returned Continue
      (marked_done ReadQ
         (enqueued ReadDataQ (block, Some (generated block))
            (fetched id_ (len (generated block)) w))).
Proof.
  intros Hq Hf Hfull Hu. rewrite Null_reader_run, Hq, Hf. cbv zeta.
  fold (generated block).
  rewrite (awaits_put ReadDataQ (block, Some (generated block)) after_delivery).
  change (full (getq ReadDataQ (fetched id_ (len (generated block)) w)))
    with (full (_read_data_queue w)).
  rewrite Hfull. unfold after_delivery, call. cbn [bind negb].
  rewrite run_Do, exec_task_done; [done |]. simpl. lia.
Qed.

Lemma run_all_reads (blocks : list Block.t) (w : World) :
  maxsize (_read_queue w) <= 0 ->
  exists w1,
    run_all (map (fun b => Null.read b false) blocks) w
    = Some (map (fun _ => PyNone) blocks, w1)
    /\ _read_queue w1
       = mkQueue (queue (_read_queue w) ++ map Some blocks)
           (maxsize (_read_queue w))
           (unfinished_tasks (_read_queue w) + Z.of_nat (length blocks))
    /\ _read_data_queue w1 = _read_data_queue w
    /\ attrs w1 = attrs w.
Proof.
  revert w. induction blocks as [| b blocks IH]; intros w Hmax.
  - exists w. simpl. rewrite app_nil_r, Z.add_0_r. by destruct (_read_queue w).
  - cbn [map run_all]. rewrite Null_read_async.
    assert (Hfull : full (_read_queue w) = false).
    { unfold full. by destruct (Z.ltb_spec 0 (maxsize (_read_queue w))); [lia |]. }
    rewrite Hfull.
    destruct (IH (enqueued ReadQ (Some b) w)) as (w1 & -> & Hq & Hd & Ha); [done |].
    exists w1. split; [done |]. rewrite Hq, Hd, Ha. simpl.
    split; [| done]. rewrite <- app_assoc. f_equal. lia.
Qed.

Lemma run_all_readers (id_ : nat) (blocks : list Block.t)
    (rest : list (option Block.t)) (w : World) :
  fatal_error (attrs w) = None ->
  queue (_read_queue w) = map Some blocks ++ rest ->
  Z.of_nat (length blocks) <= unfinished_tasks (_read_queue w) ->
  room (length blocks) (_read_data_queue w) ->
  exists w2,
    run_all (map (fun _ => Null._reader id_) blocks) w
    = Some (map (fun _ => Continue) blocks, w2)
    /\ _read_queue w2
       = mkQueue rest (maxsize (_read_queue w))
           (unfinished_tasks (_read_queue w) - Z.of_nat (length blocks))
    /\ _read_data_queue w2
       = mkQueue (queue (_read_data_queue w)
                  ++ map (fun b => (b, Some (generated b))) blocks)
           (maxsize (_read_data_queue w))
           (unfinished_tasks (_read_data_queue w) + Z.of_nat (length blocks))
    /\ attrs w2 = attrs w.
Proof.
  revert w. induction blocks as [| b blocks IH]; intros w Hf Hq Hu Hroom.
  - exists w. simpl in *. rewrite app_nil_r, Z.add_0_r, Z.sub_0_r, <- Hq.
    by destruct (_read_queue w), (_read_data_queue w).
  - cbn [map run_all].
    rewrite (Null_reader_delivers w id_ b (map Some blocks ++ rest));
      [| done | done | by eapply room_not_full | simpl in Hu; lia].
    set (w' := marked_done ReadQ _).
    destruct (IH w') as (w2 & -> & Hrq & Hdq & Ha).
    + done.
    + unfold w'. simpl. by rewrite Hq.
    + unfold w'. simpl. simpl in Hu. lia.
    + unfold w', room, qsize in *. simpl in *. rewrite length_app. simpl. lia.
    + exists w2. split; [done |]. rewrite Hrq, Hdq, Ha. unfold w'. simpl.
      split; [f_equal; lia |]. split; [| done].
      rewrite <- app_assoc. f_equal. lia.
Qed.

Lemma run_all_read_gets (blocks : list Block.t)
    (rest : list (Block.t * option bytes)) (w : World) :
  queue (_read_data_queue w)
  = map (fun b => (b, Some (generated b))) blocks ++ rest ->
  Z.of_nat (length blocks) <= unfinished_tasks (_read_data_queue w) ->
  exists w3,
    run_all (map (fun _ => Null.read_get) blocks) w
    = Some (map read_result blocks, w3)
    /\ _read_data_queue w3
       = mkQueue rest (maxsize (_read_data_queue w))
           (unfinished_tasks (_read_data_queue w) - Z.of_nat (length blocks))
    /\ _read_queue w3 = _read_queue w
    /\ attrs w3 = attrs w.
Proof.
  revert w. induction blocks as [| b blocks IH]; intros w Hq Hu.
  - exists w. simpl in *. rewrite Z.sub_0_r, <- Hq.
    by destruct (_read_data_queue w).
  - cbn [map run_all]. rewrite Null_read_get_from_get.
    rewrite (from_get_data None w b (generated b)
               (map (fun b => (b, Some (generated b))) blocks ++ rest));
      [| done | done | simpl in Hu; lia].
    set (w' := marked_done ReadDataQ _).
    destruct (IH w') as (w3 & Hrun & Hdq & Hrq & Ha).
    + unfold w'. simpl. by rewrite Hq.
    + unfold w'. simpl. simpl in Hu. lia.
    + rewrite <- Null_read_get_from_get, Hrun.
      exists w3. split; [done |]. rewrite Hdq, Hrq, Ha. unfold w'. simpl.
      split; [f_equal; lia | done].
Qed.

(** X7. On an idle null backend with no error latched, asynchronous reads of
    the blocks of a list, then as many passes of a reader, then as many
    calls of [read_get], all return without waiting as long as the
    read-result queue has room for the results; [read_get] returns the
    results in the order of the requests, each with the generated block
    for its request, and the backend is idle again afterwards. *)
Theorem null_reads_in_order (w : World) (id_ : nat) (blocks : list Block.t) :
  fatal_error (attrs w) = None ->
  _read_queue w = Queue_new (maxsize (_read_queue w)) ->
  maxsize (_read_queue w) <= 0 ->
  _read_data_queue w = Queue_new (maxsize (_read_data_queue w)) ->
  room (length blocks) (_read_data_queue w) ->
  exists w1 w2 w3,
    run_all (map (fun b => Null.read b false) blocks) w
    = Some (map (fun _ => PyNone) blocks, w1)
    /\ run_all (map (fun _ => Null._reader id_) blocks) w1
       = Some (map (fun _ => Continue) blocks, w2)
    /\ run_all (map (fun _ => Null.read_get) blocks) w2
       = Some (map read_result blocks, w3)
    /\ _read_queue w3 = _read_queue w
    /\ _read_data_queue w3 = _read_data_queue w.
Proof.
  intros Hf Hrq Hmax Hdq Hroom.
  destruct (run_all_reads blocks w Hmax) as (w1 & Hrun1 & Hrq1 & Hdq1 & Ha1).
  destruct (run_all_readers id_ blocks [] w1) as (w2 & Hrun2 & Hrq2 & Hdq2 & Ha2).
  { by rewrite Ha1. }
  { rewrite Hrq1, Hrq. simpl. by rewrite app_nil_r. }
  { rewrite Hrq1, Hrq. simpl. lia. }
  { by rewrite Hdq1. }
  destruct (run_all_read_gets blocks [] w2) as (w3 & Hrun3 & Hdq3 & Hrq3 & Ha3).
  { rewrite Hdq2, Hdq1, Hdq. simpl. by rewrite app_nil_r. }
  { rewrite Hdq2, Hdq1, Hdq. simpl. lia. }
  exists w1, w2, w3. split; [done |]. split; [done |]. split; [done |].
  rewrite Hrq3, Hrq2, Hrq1, Hdq3, Hdq2, Hdq1. simpl.
  assert (Hru : unfinished_tasks (_read_queue w) = 0) by (by rewrite Hrq).
  assert (Hdu : unfinished_tasks (_read_data_queue w) = 0) by (by rewrite Hdq).
  rewrite Hrq at 3. rewrite Hdq at 3. unfold Queue_new.
  split; f_equal; lia.
Qed.

(** X8. [read_queue_size] counts the requests that no reader has taken
    yet: after asynchronous reads of the blocks of a list on a backend
    whose read-request queue has no bound, it returns the size before
    plus the length of the list, and after a reader has served them all,
    the size before again; the call itself changes nothing. *)
Theorem read_queue_size_counts (w : World) (id_ : nat) (blocks : list Block.t) :
  fatal_error (attrs w) = None ->
  maxsize (_read_queue w) <= 0 ->
  queue (_read_queue w) = [] ->
  0 <= unfinished_tasks (_read_queue w) ->
  room (length blocks) (_read_data_queue w) ->
  exists w1 w2,
    run_all (map (fun b => Null.read b false) blocks) w
    = Some (map (fun _ => PyNone) blocks, w1)
    /\ run Null.read_queue_size w1 = Returned (Z.of_nat (length blocks)) w1
    /\ run_all (map (fun _ => Null._reader id_) blocks) w1
       = Some (map (fun _ => Continue) blocks, w2)
    /\ run Null.read_queue_size w2 = Returned 0 w2.
Proof.
  intros Hf Hmax Hq Hu Hroom.
  destruct (run_all_reads blocks w Hmax) as (w1 & Hrun1 & Hrq1 & Hdq1 & Ha1).
  destruct (run_all_readers id_ blocks [] w1) as (w2 & Hrun2 & Hrq2 & _).
  { by rewrite Ha1. }
  { rewrite Hrq1, Hq. simpl. by rewrite app_nil_r. }
  { rewrite Hrq1. simpl. lia. }
  { by rewrite Hdq1. }
  exists w1, w2. split; [done |]. split; [| split; [done |]].
  - unfold Null.read_queue_size. simpl. unfold qsize.
    rewrite Hrq1. cbn [queue]. by rewrite Hq, app_nil_l, length_map.
  - unfold Null.read_queue_size. simpl. unfold qsize. by rewrite Hrq2.
Qed.

End InOrder.

(** ** A schedule on which [close] stops the backend *)

Section CloseSchedule.
Context `{Ext : Externals}.

Lemma sys_step_ctx (w w' : World) (l1 l2 : list thread) (th th' : thread) :
  thread_step w th w' (Some th') ->
  sys_step (mkSystem w (l1 ++ th :: l2)) (mkSystem w' (l1 ++ th' :: l2)).
Proof.
  intros Hstep.
  pose proof (sys_step_thread (mkSystem w (l1 ++ th :: l2)) (length l1) th w'
                (Some th') (list_lookup_middle _ _ _ _ eq_refl) Hstep) as Hsys.
  simpl in Hsys. rewrite insert_app_r_alt, Nat.sub_diag in Hsys by done.
  exact Hsys.
Qed.

Lemma sys_step_ctx_end (w w' : World) (l1 l2 : list thread) (th : thread) :
  thread_step w th w' None ->
  sys_step (mkSystem w (l1 ++ th :: l2)) (mkSystem w' (l1 ++ l2)).
Proof.
  intros Hstep.
  pose proof (sys_step_thread (mkSystem w (l1 ++ th :: l2)) (length l1) th w'
                None (list_lookup_middle _ _ _ _ eq_refl) Hstep) as Hsys.
  simpl in Hsys. by rewrite delete_middle in Hsys.
Qed.

(** A thread that is scheduled until the part [p] of its program has
    returned. *)
Lemma steps_run {S R : Type} (C : Prog S -> Prog R) (mk : Prog R -> thread)
    (p : Prog S) (w w' : World) (r : S) (l1 l2 : list thread) :
  (forall X (a : action X) k, C (Do a k) = Do a (fun x => C (k x))) ->
  (forall w p ev p' w',
     head_step p w = Advance ev p' w' ->
     thread_step w (mk p) w' (Some (mk p'))) ->
  run p w = Returned r w' ->
  rtc sys_step (mkSystem w (l1 ++ mk (C p) :: l2))
    (mkSystem w' (l1 ++ mk (C (Ret r)) :: l2)).
Proof.
  intros HC Hmk. revert w.
  induction p as [r0 | e | X a k IH]; intros w; simpl.
  - by intros [= -> ->].
  - done.
  - destruct (exec a w) as [x w1 | e w1 |] eqn:He; [| done | done].
    intros Hrun. eapply rtc_l; [| by apply IH].
    apply sys_step_ctx, (Hmk _ _ (Ev a)). rewrite HC. simpl. by rewrite He.
Qed.

Lemma writers_finish (ids : list nat) (ths : list thread) (w : World)
    (rest : list (option write_entry)) :
  queue (_write_queue w) = replicate (length ids) None ++ rest ->
  exists w',
    rtc sys_step
      (mkSystem w
         (map (fun i => Worker (WriterThread i) (Null._writer i)) ids ++ ths))
      (mkSystem w' ths)
    /\ (forall t, t ∈ live w' <-> t ∈ live w /\ t ∉ map WriterThread ids)
    /\ attrs w' = attrs w
    /\ queue (_write_queue w') = rest
    /\ _read_queue w' = _read_queue w.
Proof.
  revert w. induction ids as [| i ids IH]; intros w Hq.
  - exists w. split; [done |]. split; [| done].
    intros t. split; [| tauto]. intros Ht. split; [done |]. apply not_elem_of_nil.
  - destruct (IH (finish (WriterThread i) (dequeued WriteQ w)))
      as (w' & Hsteps & Hlive & Ha & Hq' & Hr).
    { simpl. by rewrite Hq. }
    exists w'. split; [| split; [| done]].
    + cbn [map app].
      etrans.
      { apply (steps_run (fun p => p) (Worker (WriterThread i))
                 (Null._writer i) w (dequeued WriteQ w) Break []).
        - done.
        - intros. by eapply step_worker.
        - by rewrite Null_writer_run, Hq. }
      eapply rtc_l; [| exact Hsteps].
      apply (sys_step_ctx_end _ _ []). apply step_worker_break.
    + intros t. rewrite Hlive. unfold finish. simpl.
      rewrite list_elem_of_filter, elem_of_cons. tauto.
Qed.

Lemma readers_finish (ids : list nat) (ths : list thread) (w : World)
    (rest : list (option Block.t)) :
  queue (_read_queue w) = replicate (length ids) None ++ rest ->
  exists w',
    rtc sys_step
      (mkSystem w
         (map (fun i => Worker (ReaderThread i) (Null._reader i)) ids ++ ths))
      (mkSystem w' ths)
    /\ (forall t, t ∈ live w' <-> t ∈ live w /\ t ∉ map ReaderThread ids)
    /\ attrs w' = attrs w
    /\ queue (_read_queue w') = rest
    /\ _write_queue w' = _write_queue w.
Proof.
  revert w. induction ids as [| i ids IH]; intros w Hq.
  - exists w. split; [done |]. split; [| done].
    intros t. split; [| tauto]. intros Ht. split; [done |]. apply not_elem_of_nil.
  - destruct (IH (finish (ReaderThread i) (dequeued ReadQ w)))
      as (w' & Hsteps & Hlive & Ha & Hq' & Hr).
    { simpl. by rewrite Hq. }
    exists w'. split; [| split; [| done]].
    + cbn [map app].
      etrans.
      { apply (steps_run (fun p => p) (Worker (ReaderThread i))
                 (Null._reader i) w (dequeued ReadQ w) Break []).
        - done.
        - intros. by eapply step_worker.
        - by rewrite Null_reader_run, Hq. }
      eapply rtc_l; [| exact Hsteps].
      apply (sys_step_ctx_end _ _ []). apply step_worker_break.
    + intros t. rewrite Hlive. unfold finish. simpl.
      rewrite list_elem_of_filter, elem_of_cons. tauto.
Qed.

Ltac client_runs Hrun :=
  match goal with
  | |- rtc sys_step (mkSystem ?w (?l1 ++ Client (bind ?p ?f) :: ?l2)) _ =>
      etrans;
      [eapply (steps_run (fun q => bind q f) (fun q => Client q) p w _ _ l1 l2);
       [done | intros; by eapply step_client | exact Hrun]
      | cbn [bind]]
  end.

(** X12. From the construction of a null backend there is a schedule on which a
    client's call of [close] returns: the writers take their sentinels
    and end, then the readers; afterwards no worker thread is left, and
    the write queue and the read-request queue are empty. *)
Theorem close_stops_the_backend (config : Config) (w : World) :
  Null.__init__ config = inr w ->
  let called :=
    mkSystem w (map (fun t => Worker t (body t)) (live w) ++ [Client Null.close]) in
  sys_step (boot w 1) called
  /\ exists w',
       rtc sys_step called (mkSystem w' [Client (Ret tt)])
       /\ live w' = []
       /\ attrs w' = attrs w
       /\ queue (_write_queue w') = []
       /\ queue (_read_queue w') = [].
Proof.
  intros Hinit called. split.
  { apply (sys_step_ctx w w _ [] (Client (Ret tt)) (Client Null.close)).
    apply step_client_call; [done | constructor]. }
  destruct (init_threads _ _ Hinit) as (Hws & Hrs & Hlive).
  pose proof (init_capacities _ _ Hinit) as Hcap.
  assert (Hempty : queue (_write_queue w) = [] /\ queue (_read_queue w) = []).
  { unfold Null.__init__ in Hinit.
    destruct (filter _ (DEFAULTS config)) as [| [key value] rest]; [done |].
    destruct (int value) as [e | size]; [done |].
    by injection Hinit as <-. }
  destruct Hempty as [Hwq Hrq].
  set (n := getint config "simultaneous_writes" 1) in *.
  set (m := getint config "simultaneous_reads" 1) in *.
  injection Hcap as Hwcap Hrcap _.
  unfold called. rewrite Hlive, Hws, Hrs, map_app, !map_map. cbn [body].
  unfold Null.close.
  set (ws := _writer_threads (attrs w)) in *.
  set (rs := _reader_threads (attrs w)) in *.
  assert (Hlws : length ws = length (range n)) by (by rewrite Hws, length_map).
  assert (Hlrs : length rs = length (range m)) by (by rewrite Hrs, length_map).
  destruct (run_puts WriteQ None ws w) as (w1 & Hrun1 & Hq1 & _ & Hne1 & Ha1 & Hl1).
  { unfold room, qsize. cbn [getq elem]. rewrite Hwq, Hwcap, Hlws.
    unfold range. rewrite length_seq. simpl. lia. }
  cbn [getq elem] in Hq1. rewrite Hwq, Hlws in Hq1. simpl in Hq1.
  destruct (writers_finish (range n)
              (map (fun x => Worker (ReaderThread x) (Null._reader x)) (range m)
               ++ [Client
                     (_writer_threads <- call GetWriterThreads;;
                      for_each _writer_threads
                        (fun _writer_thread => call (ThreadJoin _writer_thread));;
                      _reader_threads <- call GetReaderThreads;;
                      for_each _reader_threads (fun _ => call (Put ReadQ None));;
                      _reader_threads0 <- call GetReaderThreads;;
                      for_each _reader_threads0
                        (fun _reader_thread => call (ThreadJoin _reader_thread)))])
              w1 [])
    as (w2 & Hsteps2 & Hl2 & Ha2 & Hq2 & Hr2).
  { by rewrite app_nil_r. }
  assert (Hdead2 : forall t, t ∈ ws -> t ∉ live w2).
  { intros t Ht [_ Hnot]%Hl2. apply Hnot. by rewrite <- Hws. }
  destruct (run_puts ReadQ None rs w2) as (w3 & Hrun3 & Hq3 & _ & Hne3 & Ha3 & Hl3).
  { left. cbn [getq elem]. rewrite Hr2.
    specialize (Hne1 ReadQ). cbn [getq elem] in Hne1. rewrite Hne1 by done. lia. }
  cbn [getq elem] in Hq3. rewrite Hr2 in Hq3.
  specialize (Hne1 ReadQ) as Hr1. cbn [getq elem] in Hr1.
  rewrite Hr1, Hrq, Hlrs in Hq3 by done. simpl in Hq3.
  destruct (readers_finish (range m)
              [Client
                 (_reader_threads0 <- call GetReaderThreads;;
                  for_each _reader_threads0
                    (fun _reader_thread => call (ThreadJoin _reader_thread)))]
              w3 [])
    as (w4 & Hsteps4 & Hl4 & Ha4 & Hq4 & Hw4).
  { by rewrite app_nil_r. }
  assert (Hnone : forall t, t ∉ live w4).
  { intros t Ht. apply Hl4 in Ht as [Ht Hnr]. rewrite Hl3 in Ht.
    apply Hl2 in Ht as [Ht Hnw]. rewrite Hl1, Hlive, elem_of_app in Ht.
    fold ws rs in Ht. rewrite Hws, Hrs in Ht. tauto. }
  exists w4. split; [| split; [by apply elem_of_nil_inv | split]].
  - rewrite <- app_assoc, app_assoc.
    client_runs (eq_refl : run (call GetWriterThreads) w = Returned ws w).
    client_runs Hrun1.
    rewrite <- app_assoc. etrans; [exact Hsteps2 |].
    client_runs (eq_refl : run (call GetWriterThreads) w2
                           = Returned (_writer_threads (attrs w2)) w2).
    rewrite Ha2, Ha1. fold ws.
    client_runs (run_joins ws w2 Hdead2).
    client_runs (eq_refl : run (call GetReaderThreads) w2
                           = Returned (_reader_threads (attrs w2)) w2).
    rewrite Ha2, Ha1. fold rs.
    client_runs Hrun3.
    etrans; [exact Hsteps4 |].
    etrans.
    { apply (steps_run
               (fun q => bind q (fun l => for_each l (fun t => call (ThreadJoin t))))
               (fun q => Client q) (call GetReaderThreads) w4 w4
               (_reader_threads (attrs w4)) [] []);
        [done | intros; by eapply step_client | done]. }
    cbn [bind app].
    apply (steps_run (fun q => q) (fun q => Client q) _ w4 w4 tt [] []);
      [done | intros; by eapply step_client |].
    apply run_joins. intros t _. apply Hnone.
  - by rewrite Ha4, Ha3, Ha2.
  - split; [| done]. rewrite Hw4.
    specialize (Hne3 WriteQ). cbn [getq elem] in Hne3. by rewrite Hne3.
Qed.

End CloseSchedule.

(** ** What the null backend delivers *)

Section Delivered.
Context `{Ext : Externals}.

Lemma api_puts_no_result {R : Type} (p : Prog R) :
  api p -> avoids puts_other_result p.
Proof.
  destruct 1;
    unfold Base.save, Base.update, Base.read, Base.read_get, Base.read_raw,
      Base.rm, Base.rm_many, Base.get_all_blob_uids, Base.close, Base._uid,
      Null.save, Null.rm, Null.rm_many, Null.read_get, Null.read,
      Null.read_queue_size, Null.get_all_blob_uids, Null.close, Null._uid,
      self_read_get;
    solve_avoids.
Qed.

Lemma body_puts_generated (t : tid) : avoids puts_other_result (body t).
Proof.
  destruct t as [i | i]; simpl; unfold Null._writer, Null._reader;
    solve_avoids.
Qed.

Lemma exec_results_generated {X : Type} (a : action X) (w : World) :
  results_generated w -> ~ puts_other_result (Ev a) ->
  match exec a w with
  | Ok _ w' | Err _ w' => results_generated w'
  | Wait => True
  end.
Proof.
  intros Hw Ha. destruct a; simpl; try done.
  - by destruct (last_exception (attrs w)).
  - unfold q_put. destruct (full (getq q w)); [done |].
    destruct q; try done. unfold results_generated. simpl.
    apply Forall_app. split; [done |]. apply Forall_singleton.
    destruct x as [block [d |]]; simpl in *; [| by destruct Ha].
    destruct (List.list_eq_dec Byte.byte_eq_dec d (generated block)) as [-> | Hd];
      [done |].
    destruct Ha. congruence.
  - destruct (negative timeout); [done |].
    unfold q_get. destruct (queue (getq q w)) as [| y rest] eqn:Hq; [done |].
    destruct q; try done. unfold results_generated in *. simpl in *.
    rewrite Hq in Hw. by inversion Hw.
  - destruct (q_task_done (getq q w)) eqn:Hd; [done |].
    unfold q_task_done in Hd. case_match; [done |]. injection Hd as <-.
    by destruct q.
  - by destruct (q_joinable (getq q w)).
  - by destruct (decide (t ∈ live w)).
  - by destruct (consume n (write_throttling w)).
  - by destruct (consume n (read_throttling w)).
Qed.

Lemma thread_step_results (w w' : World) (th : thread) (th' : option thread) :
  thread_step w th w' th' ->
  (match th with
   | Worker _ pc => avoids puts_other_result pc
   | Client pc => avoids puts_other_result pc
   end) ->
  results_generated w ->
  results_generated w'
  /\ match th' with
     | Some (Worker _ pc) => avoids puts_other_result pc
     | Some (Client pc) => avoids puts_other_result pc
     | None => True
     end.
Proof.
  intros Hstep Hth Hw.
  assert (Hhead : forall R (p p1 : Prog R) ev,
             head_step p w = Advance ev p1 w' ->
             ~ puts_other_result ev -> results_generated w').
  { intros R p p1 ev (X & a & k & _ & -> & Hex)%head_step_exec Hev.
    pose proof (exec_results_generated a w Hw Hev) as Ha.
    destruct Hex as [(x & He & _) | (e & He & _)]; by rewrite He in Ha. }
  destruct Hstep as [t pc ev pc' w' Hs | t pc e Hs | t e | t | t
                    | R pc ev pc' w' Hs | R pc e Hs | R pc R' p Hs Hapi].
  - destruct (head_step_avoids _ _ _ _ _ _ Hth Hs) as [Hev Hpc'].
    split; [by eapply Hhead | done].
  - split; [done | constructor].
  - done.
  - done.
  - split; [done | apply body_puts_generated].
  - destruct (head_step_avoids _ _ _ _ _ _ Hth Hs) as [Hev Hpc'].
    split; [by eapply Hhead | done].
  - split; [done | constructor].
  - split; [done | by apply api_puts_no_result].
Qed.

Lemma rtc_sys_step_results (s s' : System) :
  rtc sys_step s s' ->
  Forall (fun th => match th with
                    | Worker _ pc => avoids puts_other_result pc
                    | Client pc => avoids puts_other_result pc
                    end) (threads s) ->
  results_generated (world s) -> results_generated (world s').
Proof.
  induction 1 as [| s1 s2 s3 H12 _ IH]; intros Hth Hw; [done |].
  destruct H12 as [s1 i th w' th' Hi Hstep].
  pose proof (Forall_lookup_1 _ _ _ _ Hth Hi) as Hthi.
  destruct (thread_step_results _ _ _ _ Hstep Hthi Hw) as [Hw' Hth'].
  apply IH; [| done]. simpl.
  destruct th' as [th'' |]; [| by apply Forall_delete].
  apply Forall_insert; [done |]. by destruct th''.
Qed.

(** X13. In every state that a null backend reaches from its
    construction, whatever its clients call, each result on the
    read-result queue carries the generated block of its request; so a
    call of the null backend's [read_get] that returns, returns the
    generated block of the request it returns, and no call of it raises
    the [TypeError] of a result without data. *)
Theorem null_results_are_generated (config : Config) (w : World)
    (clients : nat) (s : System) :
  Null.__init__ config = inr w ->
  rtc sys_step (boot w clients) s ->
  results_generated (world s)
  /\ (forall r w', run Null.read_get (world s) = Returned r w' ->
        exists block, r = read_result block)
  /\ (forall w', run Null.read_get (world s) <> Raised no_len w').
Proof.
  intros Hinit Hreach.
  assert (Hgen : results_generated (world s)).
  { apply (rtc_sys_step_results _ _ Hreach).
    - simpl. apply Forall_app. split.
      + apply Forall_fmap, Forall_true. intros t. apply body_puts_generated.
      + apply Forall_replicate. constructor.
    - unfold Null.__init__ in Hinit.
      destruct (filter _ (DEFAULTS config)) as [| [key value] rest]; [done |].
      destruct (int value) as [e | size]; [done |].
      injection Hinit as <-. constructor. }
  split; [done |]. unfold results_generated in Hgen.
  unfold Null.read_get. simpl. unfold q_get.
  destruct (queue (_read_data_queue (world s))) as [| [block data] rest];
    [done |].
  apply Forall_cons_1 in Hgen as [Hdata _]. simpl in Hdata. subst data.
  simpl. unfold q_task_done. simpl.
  destruct (unfinished_tasks (_read_data_queue (world s)) - 1 <? 0).
  - split; [done | by intros w' [= ]].
  - split; [| done]. intros r w' [= <- _]. by exists block.
Qed.

End Delivered.

(** ** The latch of the base class *)

Section Latch.
Context `{Ext : Externals}.

Lemma rtc_sys_step_attrs (s s' : System) :
  rtc sys_step s s' -> attrs (world s') = attrs (world s).
Proof.
  induction 1 as [| s1 s2 s3 H12 _ IH]; [done |]. rewrite IH.
  destruct H12 as [s1 i th w' th' _ Hstep].
  by destruct (thread_step_frame _ _ _ _ Hstep) as [_ [Ha _]].
Qed.

(** X14. Nothing assigns [last_exception]: the constructor of the base
    class is empty, the null backend's does not assign it, and no method
    or worker does. So in every state that a null backend reaches from
    its construction the attribute does not exist, and the base class's
    [save] and [read_get], which read it first, fail with
    [AttributeError] at once, changing nothing. The base class's
    synchronous [read] does not: on a null backend its [self.read_get()]
    is the null backend's [read_get], which does not read the attribute;
    it enqueues the request and waits for a result without a time budget,
    and returns the data of a result for the block asked for. *)
Theorem last_exception_unassigned (config : Config) (w : World)
    (clients : nat) (s : System) (data : bytes) (_sync : bool)
    (cb : option callback) (timeout : Z) (block : Block.t) :
  Null.__init__ config = inr w ->
  rtc sys_step (boot w clients) s ->
  let read := Base.read (self_read_get NullDataBackend) block true in
  let w1 := enqueued ReadQ (Some block) (world s) in
  last_exception (attrs (world s)) = Unset
  /\ run (Base.save data _sync cb) (world s)
     = Raised (AttributeError "last_exception") (world s)
  /\ run (Base.read_get timeout) (world s)
     = Raised (AttributeError "last_exception") (world s)
  /\ (forall name w', run read (world s) <> Raised (AttributeError name) w')
  /\ (queue (_read_data_queue (world s)) = [] ->
      exists p, run read (world s) = Blocked p w1
                /\ budget p = None /\ timed_out p = None)
  /\ (forall d rest,
        queue (_read_data_queue (world s)) = (block, Some d) :: rest ->
        0 < unfinished_tasks (_read_data_queue (world s)) ->
        run read (world s)
        = Returned (PyBytes d) (marked_done ReadDataQ (dequeued ReadDataQ w1))).
Proof.
  intros Hinit Hreach read w1.
  assert (Hl : last_exception (attrs (world s)) = Unset).
  { rewrite (rtc_sys_step_attrs _ _ Hreach). simpl.
    unfold Null.__init__ in Hinit.
    destruct (filter _ (DEFAULTS config)) as [| [key value] rest]; [done |].
    destruct (int value) as [e | size]; [done |].
    by injection Hinit as <-. }
  assert (Hfull : full (_read_queue (world s)) = false).
  { pose proof (rtc_sys_step_capacities _ _ Hreach) as Hcap.
    change (world (boot w clients)) with w in Hcap.
    rewrite (init_capacities _ _ Hinit) in Hcap. injection Hcap as _ Hmax _.
    unfold full. by rewrite Hmax. }
  split; [done |]. split; [| split; [| split; [| split]]].
  - unfold Base.save. simpl. by rewrite Hl.
  - unfold Base.read_get. simpl. by rewrite Hl.
  - intros name w'. unfold read, Base.read, self_read_get.
    rewrite run_bind, run_put. cbn [getq elem].
    rewrite Hfull, run_bind, Null_read_get_from_get.
    unfold from_get. simpl. unfold q_get.
    destruct (queue (_read_data_queue (world s))) as [| [rblock [d |]] rest];
      simpl; try done.
    unfold q_task_done. simpl.
    destruct (_ <? 0); simpl; [done |].
    destruct (negb _); done.
  - intros Hq. unfold read, w1, Base.read, self_read_get.
    rewrite run_bind, run_put. cbn [getq elem].
    rewrite Hfull, run_bind, Null_read_get_from_get.
    rewrite from_get_empty by done.
    eexists. split; [reflexivity |]. by split.
  - intros d rest Hq Hu. unfold read, w1, Base.read, self_read_get.
    rewrite run_bind, run_put. cbn [getq elem].
    rewrite Hfull, run_bind, Null_read_get_from_get.
    rewrite (from_get_data None _ block d rest) by done.
    by rewrite Z.eqb_refl.
Qed.

End Latch.

(** * The further properties on the reference backend *)

Section FurtherExamples.
Existing Instance Fixture.externals.

Import Fixture Cases.

Example second_uid : uid_of_token (shortuuid_uuid 1) = inr uid1.
Proof. vm_compute. reflexivity. Qed.

Example constructed_no_room :
  Null.__init__ no_room = inr (constructed_with no_room).
Proof. reflexivity. Qed.

Example first_digest (b : bytes) :
  encode_ascii (shortuuid_uuid 0) = inr b ->
  (10 <= String.length (md5_hexdigest b))%nat.
Proof.
  intros Hb. vm_compute in Hb. injection Hb as <-.
  apply Nat.leb_le. vm_compute. reflexivity.
Qed.

Example second_digest (b : bytes) :
  encode_ascii (shortuuid_uuid 1) = inr b ->
  (10 <= String.length (md5_hexdigest b))%nat.
Proof.
  intros Hb. vm_compute in Hb. injection Hb as <-.
  apply Nat.leb_le. vm_compute. reflexivity.
Qed.

(** The constructor on a configuration without a block size, and on the
    reference configuration. *)
Lemma init_spec_witness :
  Null.__init__ no_block_size = inl (IndexError "list index out of range")
  /\ Null.__init__ bad_block_size
     = inl (ValueError "invalid literal for int() with base 10: '4k'")
  /\ (exists w,
        Null.__init__ config = inr w
        /\ default_block_size (attrs w) = 4096
        /\ _writer_threads (attrs w) = [WriterThread 0; WriterThread 1]
        /\ _reader_threads (attrs w) = [ReaderThread 0]
        /\ NoDup (live w))
  /\ getint config "bandwidth_read" 0 = 0.
Proof.
  split.
  { apply (proj1 (init_spec no_block_size)).
    repeat constructor; simpl; discriminate. }
  split.
  { apply (proj1 (proj2 (init_spec bad_block_size)) [] "4k"%string []
             (ValueError "invalid literal for int() with base 10: '4k'")
             eq_refl (Forall_nil_2 _)).
    reflexivity. }
  split.
  { destruct (proj1 (proj2 (proj2 (init_spec config))) [] "4096"%string [] 4096)
      as (w & Hw & Hb & _ & _ & _ & Hws & Hrs & _ & Hnd & _);
      [reflexivity | constructor | vm_compute; reflexivity |].
    exists w. split; [exact Hw |]. split; [exact Hb |].
    split; [exact Hws |]. split; [exact Hrs | exact Hnd]. }
  apply (proj2 (proj2 (proj2 (init_spec config)))). reflexivity.
Defined.

(** A reader on the backend as constructed, on a sentinel, and on a
    request. *)
Lemma reader_pass_witness :
  (run (Null._reader 0) null_backend = Blocked (Null._reader 0) null_backend
   /\ timed_out (Null._reader 0) = None)
  /\ run (Null._reader 0) (enqueued ReadQ None null_backend)
     = Returned Break (dequeued ReadQ (enqueued ReadQ None null_backend))
  /\ (let w := enqueued ReadQ (Some block1) null_backend in
      let w2 :=
        marked_done ReadQ
          (enqueued ReadDataQ (block1, Some (generated block1))
             (fetched 0 (len (generated block1)) w)) in
      run (Null._reader 0) w = Returned Continue w2
      /\ queue (_read_data_queue w2)
         = queue (_read_data_queue w) ++ [(block1, Some (generated block1))]).
Proof.
  split.
  { apply (proj1 (reader_pass null_backend 0)). reflexivity. }
  split.
  { apply (proj1 (proj2 (reader_pass (enqueued ReadQ None null_backend) 0)) []).
    reflexivity. }
  destruct (proj2 (proj2 (reader_pass (enqueued ReadQ (Some block1) null_backend) 0))
              block1 [] eq_refl eq_refl) as (_ & _ & _ & _ & Hrun & _).
  apply Hrun; reflexivity.
Defined.

(** The first two uids of the reference backend. *)
Lemma uid_determines_token_witness :
  list_ascii_of_string (shortuuid_uuid 0) = drop 10 (list_ascii_of_string uid0)
  /\ (uid0 = uid1 <-> shortuuid_uuid 0 = shortuuid_uuid 1).
Proof.
  apply (uid_determines_token (shortuuid_uuid 0) (shortuuid_uuid 1) uid0 uid1).
  - exact first_uid.
  - exact second_uid.
  - exact first_digest.
  - exact second_digest.
Defined.

(** Two [save]s on the backend as constructed. *)
Lemma successive_saves_witness :
  uid_of_token (shortuuid_uuid (draws null_backend)) = inr uid0
  /\ uid_of_token (shortuuid_uuid (S (draws null_backend))) = inr uid1
  /\ drawn (drawn null_backend) = drawn (drawn null_backend)
  /\ (uid0 = uid1
      <-> shortuuid_uuid (draws null_backend)
          = shortuuid_uuid (S (draws null_backend))).
Proof.
  apply (successive_saves null_backend (drawn (drawn null_backend))
           hello [] true false uid0 uid1).
  - rewrite run_bind, Null_save_run.
    change (fatal_error (attrs null_backend)) with (@None exn).
    change (uid_of_token (shortuuid_uuid (draws null_backend)))
      with (uid_of_token (shortuuid_uuid 0)).
    rewrite first_uid, run_bind, Null_save_run.
    change (fatal_error (attrs (drawn null_backend))) with (@None exn).
    change (uid_of_token (shortuuid_uuid (draws (drawn null_backend))))
      with (uid_of_token (shortuuid_uuid 1)).
    rewrite second_uid. reflexivity.
  - exact first_digest.
  - exact second_digest.
Defined.

(** The base class's synchronous [read] on a failed backend, on an idle
    one, and on one with a result waiting. *)
Lemma Base_read_sync_spec_witness :
  let read := Base.read (self_read_get BaseDataBackend) block1 true in
  run read failed_backend
  = Raised connection_lost (enqueued ReadQ (Some block1) failed_backend)
  /\ (exists p,
        run read backend = Blocked p (enqueued ReadQ (Some block1) backend)
        /\ budget p = Some 30
        /\ timed_out p = Some (Raise queue_Empty))
  /\ run read (delivered (block2, None) backend)
     = Raised no_len
         (dequeued ReadDataQ
            (enqueued ReadQ (Some block1) (delivered (block2, None) backend)))
  /\ run read (delivered (block2, Some hello) backend)
     = Raised (RuntimeError "Do not mix threaded reading with sync reading!")
         (marked_done ReadDataQ
            (dequeued ReadDataQ
               (enqueued ReadQ (Some block1)
                  (delivered (block2, Some hello) backend))))
  /\ run read (delivered (block1, Some hello) backend)
     = Returned (PyBytes hello)
         (marked_done ReadDataQ
            (dequeued ReadDataQ
               (enqueued ReadQ (Some block1)
                  (delivered (block1, Some hello) backend)))).
Proof.
  intros read. split.
  { apply (proj1 (proj2 (Base_read_sync_spec failed_backend block1 eq_refl))).
    reflexivity. }
  split.
  { apply (proj1 (proj2 (proj2 (Base_read_sync_spec backend block1 eq_refl))
                    eq_refl)).
    reflexivity. }
  split.
  { apply (proj1 (proj2 (proj2 (proj2
             (Base_read_sync_spec (delivered (block2, None) backend) block1
                eq_refl)) eq_refl)) block2 []).
    reflexivity. }
  split.
  { apply (proj2 (proj2 (proj2 (proj2 (proj2
             (Base_read_sync_spec (delivered (block2, Some hello) backend) block1
                eq_refl)) eq_refl)) block2 hello [] eq_refl eq_refl)). }
  apply (proj2 (proj2 (proj2 (proj2 (proj2
           (Base_read_sync_spec (delivered (block1, Some hello) backend) block1
              eq_refl)) eq_refl)) block1 hello [] eq_refl eq_refl)).
Defined.

(** A synchronous [read] of the base class, run to its end on a backend
    whose oldest result has no data: the case its not-found statement is
    for. *)
Lemma never_not_found_witness :
  let w0 := delivered (block1, None) backend in
  let w1 := enqueued ReadQ (Some block1) w0 in
  runs others (Base.read (self_read_get BaseDataBackend) block1 true) w0
    [(Ev (Put ReadQ (Some block1)), w0); (Ev GetLastException, w1);
     (Ev (Get ReadDataQ (Some 30)), w1)]
    (Raise no_len) (dequeued ReadDataQ w1)
  /\ ~ not_found no_len.
Proof.
  intros w0 w1.
  assert (Hruns : runs others
                    (Base.read (self_read_get BaseDataBackend) block1 true) w0
                    [(Ev (Put ReadQ (Some block1)), w0); (Ev GetLastException, w1);
                     (Ev (Get ReadDataQ (Some 30)), w1)]
                    (Raise no_len) (dequeued ReadDataQ w1)).
  { eapply runs_step; [reflexivity |].
    eapply runs_step; [reflexivity |].
    eapply runs_step; [reflexivity |].
    apply runs_here. }
  split; [exact Hruns |].
  refine (proj1 (never_not_found _ _ w0 _ _ _ _ Hruns) no_len eq_refl).
  - apply (api_Base_read BaseDataBackend).
  - split; intros e He; vm_compute in He; discriminate He.
Defined.

(** Two requests on the backend as constructed. *)
Lemma null_reads_in_order_witness :
  exists w1 w2 w3,
    run_all [Null.read block1 false; Null.read block2 false] null_backend
    = Some ([PyNone; PyNone], w1)
    /\ run_all [Null._reader 0; Null._reader 0] w1
       = Some ([Continue; Continue], w2)
    /\ run_all [Null.read_get; Null.read_get] w2
       = Some ([read_result block1; read_result block2], w3)
    /\ _read_queue w3 = _read_queue null_backend
    /\ _read_data_queue w3 = _read_data_queue null_backend.
Proof.
  apply (null_reads_in_order null_backend 0 [block1; block2]).
  - reflexivity.
  - reflexivity.
  - vm_compute. discriminate.
  - reflexivity.
  - right. vm_compute. discriminate.
Defined.

Lemma read_queue_size_counts_witness :
  exists w1 w2,
    run_all [Null.read block1 false; Null.read block2 false] null_backend
    = Some ([PyNone; PyNone], w1)
    /\ run Null.read_queue_size w1 = Returned 2 w1
    /\ run_all [Null._reader 0; Null._reader 0] w1
       = Some ([Continue; Continue], w2)
    /\ run Null.read_queue_size w2 = Returned 0 w2.
Proof.
  apply (read_queue_size_counts null_backend 0 [block1; block2]).
  - reflexivity.
  - vm_compute. discriminate.
  - reflexivity.
  - vm_compute. discriminate.
  - right. vm_compute. discriminate.
Defined.

(** The reference backend gets to [served]: its client calls an
    asynchronous [read], and reader 0 makes a pass. *)
Example reach_served :
  rtc sys_step (boot null_backend 1)
    (mkSystem served
       [Worker (WriterThread 0) (Null._writer 0);
        Worker (WriterThread 1) (Null._writer 1);
        Worker (ReaderThread 0) (Ret Continue);
        Client (Ret PyNone)]).
Proof.
  change (boot null_backend 1)
    with (mkSystem null_backend
            ([Worker (WriterThread 0) (Null._writer 0);
              Worker (WriterThread 1) (Null._writer 1);
              Worker (ReaderThread 0) (Null._reader 0)]
             ++ [Client (Ret tt)])).
  eapply rtc_l.
  { apply (sys_step_ctx _ null_backend _ _ _ (Client (Null.read block1 false))).
    apply step_client_call; [reflexivity | constructor]. }
  etrans.
  { apply (steps_run (fun q => q) (fun q => Client q) (Null.read block1 false)
             null_backend requested PyNone);
      [done | intros; by eapply step_client |].
    by rewrite Null_read_async. }
  apply (steps_run (fun q => q) (Worker (ReaderThread 0)) (Null._reader 0)
           requested served Continue
           [Worker (WriterThread 0) (Null._writer 0);
            Worker (WriterThread 1) (Null._writer 1)]
           [Client (Ret PyNone)]);
    [done | intros; by eapply step_worker |].
  by apply (Null_reader_delivers requested 0 block1 []).
Qed.

(** The backend with one result waiting. *)
Lemma queues_within_bounds_witness :
  qsize (_read_data_queue served) = 1
  /\ qsize (_write_queue served) <= 22
  /\ qsize (_read_data_queue served) <= 21
  /\ 0 <= unfinished_tasks (_read_data_queue served).
Proof.
  pose proof (queues_within_bounds config null_backend 1 _
                constructed reach_served) as (Hw & Hr & Hu).
  split; [reflexivity |].
  split; [apply Hw; reflexivity |].
  split; [apply Hr; reflexivity | apply (Hu ReadDataQ)].
Defined.


(** The report on the backend as constructed, and on one constructed
    with a read-result queue of capacity zero. *)
Lemma queue_status_spec_witness :
  queue_status (constructed_with no_room) = inl ZeroDivisionError
  /\ exists st,
       queue_status null_backend = inr st
       /\ (0 <= rq_filled st /\ rq_filled st <= 1)%Q
       /\ (0 <= wq_filled st /\ wq_filled st <= 1)%Q.
Proof.
  split.
  { apply (proj1 (queue_status_spec no_room (constructed_with no_room) 1
                    (boot (constructed_with no_room) 1)
                    constructed_no_room (rtc_refl _ _))).
    left. reflexivity. }
  destruct (proj2 (queue_status_spec config null_backend 1 (boot null_backend 1)
                     constructed (rtc_refl _ _)))
    as (st & Hst & Hr & _ & Hw & _).
  - vm_compute. discriminate.
  - vm_compute. discriminate.
  - exists st. split; [exact Hst |]. split; [apply Hr | apply Hw]; reflexivity.
Defined.

(** [close] on the backend as constructed. *)
Lemma close_stops_the_backend_witness :
  sys_step (boot null_backend 1)
    (mkSystem null_backend
       (map (fun t => Worker t (body t)) (live null_backend)
        ++ [Client Null.close]))
  /\ exists w',
       rtc sys_step
         (mkSystem null_backend
            (map (fun t => Worker t (body t)) (live null_backend)
             ++ [Client Null.close]))
         (mkSystem w' [Client (Ret tt)])
       /\ live w' = []
       /\ attrs w' = attrs null_backend
       /\ queue (_write_queue w') = []
       /\ queue (_read_queue w') = [].
Proof.
  apply (close_stops_the_backend config null_backend). exact constructed.
Defined.

(** The backend with one result waiting, and [read_get] on it. *)
Lemma null_results_are_generated_witness :
  queue (_read_data_queue served) = [(block1, Some (generated block1))]
  /\ results_generated served
  /\ run Null.read_get served
     = Returned (read_result block1)
         (marked_done ReadDataQ (dequeued ReadDataQ served))
  /\ (exists block, read_result block1 = read_result block)
  /\ (forall w', run Null.read_get served <> Raised no_len w').
Proof.
  pose proof (null_results_are_generated config null_backend 1 _
                constructed reach_served) as (Hgen & Hret & Hraise).
  assert (Hrun : run Null.read_get served
                 = Returned (read_result block1)
                     (marked_done ReadDataQ (dequeued ReadDataQ served))).
  { rewrite Null_read_get_from_get.
    by apply (from_get_data None served block1 (generated block1) []). }
  split; [reflexivity |]. split; [exact Hgen |]. split; [exact Hrun |].
  split; [exact (Hret _ _ Hrun) | exact Hraise].
Defined.

(** The methods of the base class on the backend as constructed, and
    its synchronous [read] on the backend with a result waiting. *)
Lemma last_exception_unassigned_witness :
  let read := Base.read (self_read_get NullDataBackend) block1 true in
  last_exception (attrs null_backend) = Unset
  /\ run (Base.save hello true None) null_backend
     = Raised (AttributeError "last_exception") null_backend
  /\ run (Base.read_get 30) null_backend
     = Raised (AttributeError "last_exception") null_backend
  /\ (exists p,
        run read null_backend = Blocked p (enqueued ReadQ (Some block1) null_backend)
        /\ budget p = None /\ timed_out p = None)
  /\ run read served
     = Returned (PyBytes (generated block1))
         (marked_done ReadDataQ
            (dequeued ReadDataQ (enqueued ReadQ (Some block1) served))).
Proof.
  intros read.
  pose proof (last_exception_unassigned config null_backend 1
                (boot null_backend 1) hello true None 30 block1
                constructed (rtc_refl _ _)) as (Hl & Hsave & Hget & _ & Hwait & _).
  pose proof (last_exception_unassigned config null_backend 1 _ hello true None
                30 block1 constructed reach_served) as (_ & _ & _ & _ & _ & Hdata).
  split; [exact Hl |]. split; [exact Hsave |]. split; [exact Hget |].
  split; [apply Hwait; reflexivity |].
  apply (Hdata (generated block1) []); reflexivity.
Defined.

End FurtherExamples.
